(** * TheAgentsClusters: the master controller (v1.1) and the agent base class

    A shallow embedding of [master_controller.py] (class [MasterController])
    and of [agent_template.py] (class [Agent]): the task queue, the agent
    registry, the dispatcher's launch loop, the wrapper that runs an agent on
    a task, the completion callback with its retry logic, and shutdown.

    Python objects are modelled by value.  The asyncio event loop is modelled
    by a step function over events: between two suspension points the code
    runs atomically, so one event is one such atomic stretch.  Every call of
    [uuid.uuid4()] takes its result from the event that triggers it.

    Around the controller: the memory system of [memory.py] with its cache
    and its local backends, the reporting of results and of the status
    snapshot through it, [process_task] of the tool creator, the tool
    executor and the info hunter, the start-up in [cli.py] and the reading
    side of [dashboard.py].  Language model, file system and subprocesses
    are parameters of the functions that use them. *)

From Stdlib Require Import ZArith String Ascii List Lia.
From stdpp Require Import base gmap strings list fin_maps.

Local Open Scope string_scope.
Local Open Scope list_scope.
Local Open Scope Z_scope.

(** ** Text helpers *)

Module Text.

(** [str.lower()] on the ASCII range; the other bytes are left alone. *)
Definition lower_char (c : ascii) : ascii :=
  let n := nat_of_ascii c in
  if ((65 <=? n) && (n <=? 90))%nat then ascii_of_nat (n + 32) else c.

Fixpoint lower (s : string) : string :=
  match s with
  | EmptyString => EmptyString
  | String c s' => String (lower_char c) (lower s')
  end.

(** [needle in hay] on strings. *)
Fixpoint contains (needle hay : string) : bool :=
  String.prefix needle hay ||
  match hay with
  | EmptyString => false
  | String _ hay' => contains needle hay'
  end.

(** [s[:n]] on ASCII text. *)
Definition take (n : nat) (s : string) : string := String.substring 0 n s.

(** [s[:n]] on any text.  A Python string is a sequence of characters and
    is held here as its UTF-8 bytes; the bytes [10xxxxxx] continue the
    character begun before them. *)
Definition is_continuation (b : ascii) : bool :=
  let n := nat_of_ascii b in
  ((128 <=? n) && (n <? 192))%nat.

Fixpoint take_chars (n : nat) (s : string) : string :=
  match s with
  | EmptyString => EmptyString
  | String b s' =>
      if is_continuation b then String b (take_chars n s')
      else
        match n with
        | O => EmptyString
        | S n' => String b (take_chars n' s')
        end
  end.

End Text.

(** ** Python containers *)

(** A [dict] with string keys whose iteration order the code relies on:
    an association list in insertion order, keys pairwise distinct. *)
Module PyDict.
Section Ops.
Context {V : Type}.

(** [d[k] = v]: overwrite in place, or append a new key. *)
Fixpoint set (k : string) (v : V) (d : list (string * V)) : list (string * V) :=
  match d with
  | [] => [(k, v)]
  | (k', v') :: d' =>
      if decide (k' = k) then (k, v) :: d' else (k', v') :: set k v d'
  end.

(** [d.get(k)] *)
Fixpoint get (k : string) (d : list (string * V)) : option V :=
  match d with
  | [] => None
  | (k', v') :: d' => if decide (k' = k) then Some v' else get k d'
  end.

(** [del d[k]] *)
Fixpoint del (k : string) (d : list (string * V)) : list (string * V) :=
  match d with
  | [] => []
  | (k', v') :: d' => if decide (k' = k) then del k d' else (k', v') :: del k d'
  end.
End Ops.
End PyDict.

(** [collections.deque(maxlen=n).append(x)]: the new item goes to the right
    end and, when the deque was full, the leftmost item is discarded. *)
Definition deque_append {A} (maxlen : nat) (x : A) (q : list A) : list A :=
  let q' := q ++ [x] in
  if (maxlen <? length q')%nat then tail q' else q'.

(** The [n] rightmost items of a list. *)
Definition lastn {A} (n : nat) (l : list A) : list A :=
  drop (length l - n)%nat l.

(** ** Data model *)

(** A Python value as far as the code looks into it: [None], a string, or
    another object, of which only the type name and the truth value
    matter. *)
Inductive py_value :=
| PNone
| PStr (s : string)
| PObj (type_name : string) (truth : bool).

(** [bool(v)] *)
Definition truthy (v : py_value) : bool :=
  match v with
  | PNone => false
  | PStr s => negb (bool_decide (s = ""))
  | PObj _ b => b
  end.

(** The details of the tasks the controller is given: a dict from field
    names to text.  The controller reads ['agent_type'] and only hands the
    rest on. *)
Abbreviation details_map := (gmap string string).

(** The dict [_create_agent] receives as [task_details]: any value may sit
    under a field. *)
Abbreviation task_info_map := (gmap string py_value).

(** Details whose fields are text, as such a dict. *)
Definition as_task_info (d : details_map) : task_info_map := PStr <$> d.

Inductive task_status :=
  T_pending | T_running | T_completed | T_error | T_cancelled.

(** The dict built by [assign_task]; the key ['error'] is added by the
    wrapper [_run_agent_task] only. *)
Record task := Task {
  task_id : string;
  details : details_map;
  status : task_status;
  retry_count : Z;
  error : option string
}.

Inductive agent_class :=
  BrowserAgent | ToolCreatorAgent | ToolExecutorAgent | InfoHunterAgent | Agent.

Inductive agent_state :=
  S_idle | S_running | S_finished | S_error | S_cancelled | S_stopped.

Record agent := AgentObj {
  agent_id : string;
  agent_cls : agent_class;
  state : agent_state;
  current_task : option details_map;
  _task_meta_for_callback : option task
}.

Inductive exn :=
| CancelledError
| Exception (msg : string).

(** How a call ends. *)
Inductive completion :=
| Returns
| Raises (e : exn).

(** What the awaited [process_task] does when the unit is resumed. *)
Inductive process_outcome :=
| Produced (result : string)
| Failed (msg : string)
| CancelledDuring.

Inductive aio_phase :=
| Scheduled                       (* created, not yet stepped *)
| Processing                      (* suspended inside [process_task] *)
| Done (exc : option exn).        (* finished; [exc] is what it raised *)

(** An [asyncio.Task] wrapping [_run_agent_task(agent, task_with_meta)]. *)
Record aio_task := AioTask {
  aio_id : nat;
  aio_meta : task;
  aio_phase_of : aio_phase
}.

(** The lines the logger receives at level info and above. *)
Inductive log_record :=
| LogAssigned (tid : string)
| LogRequeued (tid : string) (retry : Z)
| LogLimitReached
| LogDefaultAgent (hint : string)
| LogAgentCreated (aid : string) (cls : agent_class)
| LogDelegating (tid aid : string)
| LogCreateFailed (tid : string)
| LogUnitCompleted (aid tid : string)
| LogUnitCancelled (aid tid : string)
| LogUnitError (aid tid msg : string)
| LogUnknownAgent (aid : string)
| LogRetrying (tid aid : string) (attempt : Z)
| LogGivingUp (tid aid : string)
| LogUnmapped (unit_id : nat)
| LogUnhandled (unit_id : nat) (msg : string)
| LogRunLoopError
| LogShutdown.

Record controller := Controller {
  task_queue : list task;
  agents : gmap string agent;
  active_tasks : list (string * aio_task);
  completed_tasks_history : list (string * task);
  max_concurrent_agents : Z;
  max_task_retries : Z;
  running : bool;
  spawned : nat;                  (* asyncio tasks created so far *)
  log : list log_record
}.

(** [MasterController.__init__], followed by [self.running = True] of [run]. *)
Definition init (max_agents max_retries : Z) : controller :=
  {| task_queue := [];
     agents := ∅;
     active_tasks := [];
     completed_tasks_history := [];
     max_concurrent_agents := max_agents;
     max_task_retries := max_retries;
     running := true;
     spawned := 0%nat;
     log := [] |}.

(** The capacity of [completed_tasks_history]. *)
Definition history_maxlen : nat := 50.

(** Field updates. *)
Definition with_task_queue (q : list task) (c : controller) : controller :=
  Controller q (agents c) (active_tasks c) (completed_tasks_history c)
    (max_concurrent_agents c) (max_task_retries c) (running c) (spawned c) (log c).

Definition with_agents (m : gmap string agent) (c : controller) : controller :=
  Controller (task_queue c) m (active_tasks c) (completed_tasks_history c)
    (max_concurrent_agents c) (max_task_retries c) (running c) (spawned c) (log c).

Definition with_active_tasks (d : list (string * aio_task)) (c : controller) : controller :=
  Controller (task_queue c) (agents c) d (completed_tasks_history c)
    (max_concurrent_agents c) (max_task_retries c) (running c) (spawned c) (log c).

Definition with_history (h : list (string * task)) (c : controller) : controller :=
  Controller (task_queue c) (agents c) (active_tasks c) h
    (max_concurrent_agents c) (max_task_retries c) (running c) (spawned c) (log c).

Definition with_running (b : bool) (c : controller) : controller :=
  Controller (task_queue c) (agents c) (active_tasks c) (completed_tasks_history c)
    (max_concurrent_agents c) (max_task_retries c) b (spawned c) (log c).

Definition with_spawned (n : nat) (c : controller) : controller :=
  Controller (task_queue c) (agents c) (active_tasks c) (completed_tasks_history c)
    (max_concurrent_agents c) (max_task_retries c) (running c) n (log c).

Definition emit (r : log_record) (c : controller) : controller :=
  Controller (task_queue c) (agents c) (active_tasks c) (completed_tasks_history c)
    (max_concurrent_agents c) (max_task_retries c) (running c) (spawned c) (log c ++ [r]).

Definition with_status (s : task_status) (t : task) : task :=
  Task (task_id t) (details t) s (retry_count t) (error t).

Definition with_error (e : string) (t : task) : task :=
  Task (task_id t) (details t) (status t) (retry_count t) (Some e).

Definition with_state (s : agent_state) (a : agent) : agent :=
  AgentObj (agent_id a) (agent_cls a) s (current_task a) (_task_meta_for_callback a).

Definition with_current_task (d : option details_map) (a : agent) : agent :=
  AgentObj (agent_id a) (agent_cls a) (state a) d (_task_meta_for_callback a).

Definition with_task_meta (m : option task) (a : agent) : agent :=
  AgentObj (agent_id a) (agent_cls a) (state a) (current_task a) m.

Definition with_phase (p : aio_phase) (t : aio_task) : aio_task :=
  AioTask (aio_id t) (aio_meta t) p.

(** ** [MasterController.assign_task] *)

Definition assign_task (task_details : details_map) (retry : Z) (u : string)
    (c : controller) : controller * string :=
  let task := {| task_id := u; details := task_details; status := T_pending;
                 retry_count := retry; error := None |} in
  if 0 <? retry
  then (emit (LogRequeued u retry) (with_task_queue (task :: task_queue c) c), u)
  else (emit (LogAssigned u) (with_task_queue (task_queue c ++ [task]) c), u).

(** ** [MasterController._create_agent] *)

(** ['description' in task_info and kw in task_info['description'].lower()].
    The answer is [None] when the call of [.lower()] raises AttributeError:
    the value under ['description'] is not a string. *)
Definition description_has (kw : string) (task_info : task_info_map) : option bool :=
  match task_info !! "description" with
  | Some (PStr d) => Some (Text.contains kw (Text.lower d))
  | Some _ => None
  | None => Some false
  end.

Definition has_key (k : string) (task_info : task_info_map) : bool :=
  bool_decide (is_Some (task_info !! k)).

(** The routing rules: the effective agent type for a type hint and the
    task details, or [None] when a rule raises. *)
Definition effective_agent_type (agent_type : string) (task_info : task_info_map)
    : option string :=
  if decide (agent_type = "default") then
    if has_key "url" task_info then Some "browser"
    else
      match description_has "create" task_info with
      | None => None
      | Some true => Some "tool_creator"
      | Some false =>
          if has_key "code" task_info || has_key "code_key" task_info
          then Some "tool_executor"
          else
            match description_has "find" task_info,
                  description_has "research" task_info,
                  description_has "gather" task_info with
            | Some f, Some r, Some g =>
                if f || r || g then Some "info_hunter" else Some agent_type
            | _, _, _ => None
            end
      end
  else Some agent_type.

Definition class_of (effective : string) : agent_class :=
  if decide (effective = "browser") then BrowserAgent
  else if decide (effective = "tool_creator") then ToolCreatorAgent
  else if decide (effective = "tool_executor") then ToolExecutorAgent
  else if decide (effective = "info_hunter") then InfoHunterAgent
  else Agent.

(** [Agent.__init__] (every subclass calls it and adds no state the
    controller reads). *)
Definition new_agent (aid : string) (cls : agent_class) : agent :=
  {| agent_id := aid; agent_cls := cls; state := S_idle;
     current_task := None; _task_meta_for_callback := None |}.

(** [f"{agent_type}-{str(uuid.uuid4())[:8]}"] *)
Definition make_agent_id (agent_type u : string) : string :=
  agent_type +:+ "-" +:+ Text.take 8 u.

(** [len(self.agents) >= self.max_concurrent_agents] *)
Definition at_capacity (c : controller) : bool :=
  max_concurrent_agents c <=? Z.of_nat (size (agents c)).

(** The body runs under [agent_creation_lock] and has no suspension point.
    An agent instance is truthy, so the final [else] that reports a failed
    construction is never taken.  The answer is [None] when the routing
    rules raise: the exception leaves the method, and the controller is as
    it was. *)

Definition _create_agent (agent_type : string) (task_details : task_info_map)
    (u : string) (c : controller) : option (controller * option agent) :=
  if at_capacity c then Some (emit LogLimitReached c, None)
  else
    let aid := make_agent_id agent_type u in
    match effective_agent_type agent_type task_details with
    | None => None
    | Some effective =>
        let cls := class_of effective in
        let c1 := match cls with
                  | Agent => emit (LogDefaultAgent agent_type) c
                  | _ => c
                  end in
        let inst := new_agent aid cls in
        Some (emit (LogAgentCreated aid cls) (with_agents (<[aid := inst]> (agents c1)) c1),
              Some inst)
    end.

(** ** [Agent.receive_task]

    The coroutine suspends once, at [await self.process_task(...)]; it is
    split there.  [report_back] only talks to the memory collaborator, whose
    [store] catches the errors of its backends, and is not modelled. *)

Definition receive_task_begin (task_details : details_map) (a : agent) : agent :=
  with_state S_running (with_current_task (Some task_details) a).

Definition receive_task_resume (po : process_outcome) (a : agent) : agent * completion :=
  match po with
  | Produced _ =>
      (with_current_task None (with_state S_finished a), Returns)
  | CancelledDuring =>
      (* except asyncio.CancelledError: state, then a bare [raise] *)
      (with_current_task None (with_state S_cancelled a), Raises CancelledError)
  | Failed _ =>
      (* except Exception: state and message are kept, nothing is raised *)
      (with_current_task None (with_state S_error a), Returns)
  end.

(** ** [MasterController.receive_agent_update] *)

Definition receive_agent_update (aid : string) (s : agent_state) (c : controller) : controller :=
  match agents c !! aid with
  | Some a => with_agents (<[aid := with_state s a]> (agents c)) c
  | None => emit (LogUnknownAgent aid) c
  end.

(** ** [MasterController._run_agent_task]

    The agent a unit works on is the registry entry under its id; when the
    registry has no such entry the agent object is out of sight, and only
    the task dict, the history and the log are updated.  The task dict is
    shared between the unit, the agent attribute [_task_meta_for_callback]
    and the history entry, so the attribute is rewritten whenever the unit
    changes the dict. *)

Definition run_agent_task_begin (aid : string) (meta : task) (c : controller) : controller :=
  match agents c !! aid with
  | Some a =>
      let a1 := with_task_meta (Some meta) a in
      with_agents (<[aid := receive_task_begin (details meta) a1]> (agents c)) c
  | None => c
  end.

Definition run_agent_task_resume (aid : string) (meta : task) (po : process_outcome)
    (c : controller) : controller * task * completion :=
  (* try: await agent.receive_task(task_details) *)
  let '(registered, a', k) :=
    match agents c !! aid with
    | Some a => let '(a', k) := receive_task_resume po a in (true, a', k)
    | None => let '(a', k) := receive_task_resume po (new_agent aid Agent) in (false, a', k)
    end in
  let '(meta', c1, k') :=
    match k with
    | Returns =>
        (with_status T_completed meta, emit (LogUnitCompleted aid (task_id meta)) c, Returns)
    | Raises CancelledError =>
        (with_status T_cancelled meta, emit (LogUnitCancelled aid (task_id meta)) c,
         Raises CancelledError)
    | Raises (Exception msg) =>
        (with_error msg (with_status T_error meta),
         emit (LogUnitError aid (task_id meta) msg) c, Returns)
    end in
  (* finally *)
  let c2 :=
    if registered
    then with_agents (<[aid := with_task_meta (Some meta') a']> (agents c1)) c1
    else c1 in
  let c3 := receive_agent_update aid (state a') c2 in
  (with_history
     (deque_append history_maxlen (task_id meta', meta') (completed_tasks_history c3)) c3,
   meta', k').

(** ** [MasterController._handle_task_completion] *)

(** [for aid, t in self.active_tasks.items(): if t == task: ... break] *)
Fixpoint scan_active (task : aio_task) (d : list (string * aio_task)) : option string :=
  match d with
  | [] => None
  | (aid, t) :: d' =>
      if decide (aio_id t = aio_id task) then Some aid else scan_active task d'
  end.

(** The retry decision taken for an agent that ended in state ["error"]. *)
Definition retry_decision (aid : string) (meta : task) (u : string)
    (c : controller) : controller :=
  let current_retry := retry_count meta in
  if current_retry <? max_task_retries c then
    fst (assign_task (details meta) (current_retry + 1) u
           (emit (LogRetrying (task_id meta) aid (current_retry + 1)) c))
  else emit (LogGivingUp (task_id meta) aid) c.

Definition _handle_task_completion (task : aio_task) (u : string)
    (c : controller) : controller * completion :=
  let c' :=
    match scan_active task (active_tasks c) with
    | Some aid =>
        if decide (aid = "") then emit (LogUnmapped (aio_id task)) c
        else
          let c1 := with_active_tasks (PyDict.del aid (active_tasks c)) c in
          match agents c1 !! aid with
          | Some a =>
              let c2 :=
                match state a, _task_meta_for_callback a with
                | S_error, Some meta => retry_decision aid meta u c1
                | _, _ => c1
                end in
              (* delattr(agent_instance, '_task_meta_for_callback') *)
              with_agents (<[aid := with_task_meta None a]> (agents c2)) c2
          | None => c1
          end
    | None => emit (LogUnmapped (aio_id task)) c
    end in
  (* exception = task.exception() *)
  match aio_phase_of task with
  | Done None => (c', Returns)
  | Done (Some CancelledError) => (c', Raises CancelledError)
  | Done (Some (Exception msg)) => (emit (LogUnhandled (aio_id task) msg) c', Returns)
  | _ => (c', Raises (Exception "InvalidStateError"))
  end.

(** ** [MasterController.shutdown]

    [shutdown] suspends in [asyncio.gather]; it is split there.  Before the
    suspension it clears the running flag and requests the cancellation of
    every unit that is not done; afterwards it empties the in-flight map,
    stops the agents and empties the registry and the queue. *)

Definition shutdown_begin (c : controller) : controller :=
  emit LogShutdown (with_running false c).

Definition shutdown_finish (c : controller) : controller :=
  with_task_queue [] (with_agents ∅ (with_active_tasks [] c)).

(** ** [MasterController.run]: the launch loop

    Of the outer loop only its condition and the inner launch loop are
    modelled; the periodic status snapshot only reads the controller. *)

(** [task_details_with_meta['details'].get('agent_type', 'default')] *)
Definition hint_of (d : details_map) : string :=
  default "default" (d !! "agent_type").

(** [while self.task_queue and len(self.active_tasks) < self.max_concurrent_agents] *)
Definition launch_guard (c : controller) : bool :=
  negb (bool_decide (task_queue c = [])) &&
  (Z.of_nat (length (active_tasks c)) <? max_concurrent_agents c).

(** One pass through the body of the inner loop; exactly one uuid is drawn
    on either branch.  An exception out of [_create_agent] is caught by the
    [except Exception] of [run], which logs it and calls [shutdown]; the
    details of a queued task being text, the routing rules do not raise on
    them. *)
Definition launch_one (u : string) (c : controller) : controller :=
  match task_queue c with
  | [] => c
  | t :: q =>
      let c0 := with_task_queue q c in
      let agent_type_hint := hint_of (details t) in
      match _create_agent agent_type_hint (as_task_info (details t)) u c0 with
      | Some (c1, Some a) =>
          let agent_task :=
            {| aio_id := spawned c1; aio_meta := with_status T_running t;
               aio_phase_of := Scheduled |} in
          with_spawned (S (spawned c1))
            (with_active_tasks (PyDict.set (agent_id a) agent_task (active_tasks c1))
               (emit (LogDelegating (task_id t) (agent_id a)) c1))
      | Some (c1, None) =>
          fst (assign_task (details t) (retry_count t) u
                 (emit (LogCreateFailed (task_id t)) c1))
      | None => shutdown_begin (emit LogRunLoopError c0)
      end
  end.

(** The inner loop; [us] is the supply of uuids, one per pass.  The flag
    tells whether the loop left through its condition before the supply
    ran out. *)
Fixpoint launch_loop (us : list string) (c : controller) : controller * bool :=
  if launch_guard c then
    match us with
    | [] => (c, false)
    | u :: us' => launch_loop us' (launch_one u c)
    end
  else (c, true).

(** The outer loop goes on [while self.running or self.active_tasks]. *)
Definition loop_alive (c : controller) : bool :=
  running c || negb (bool_decide (active_tasks c = [])).

(** ** The event loop

    What the asyncio loop does next: a call of [assign_task], a pass of the
    launch loop, a step of a unit, the callback of a finished unit, the two
    halves of [shutdown] (before and after it has awaited the cancelled
    units).  The uuids drawn are carried by the events.

    A unit is followed through its entry in [active_tasks], where the code
    keeps it under the id of its agent.  Should [uuid4] give the same first
    eight characters twice for one agent type, the second unit takes the
    place of the first in that dict and the first runs on where the
    controller no longer sees it; such a unit is not followed here, and the
    properties that count what reaches the history are stated for runs
    whose agent ids do not repeat. *)

Inductive event :=
| EvAssign (task_details : details_map) (retry : Z) (u : string)
| EvLaunch (u : string)
| EvUnitStart (aid : string)
| EvUnitEnd (aid : string) (po : process_outcome)
| EvCallback (aid : string) (u : string)
| EvShutdownBegin
| EvShutdownFinish.

Definition unit_start (aid : string) (c : controller) : controller :=
  match PyDict.get aid (active_tasks c) with
  | Some t =>
      match aio_phase_of t with
      | Scheduled =>
          let c1 := run_agent_task_begin aid (aio_meta t) c in
          with_active_tasks (PyDict.set aid (with_phase Processing t) (active_tasks c1)) c1
      | _ => c
      end
  | None => c
  end.

Definition raised (k : completion) : option exn :=
  match k with Returns => None | Raises e => Some e end.

Definition unit_end (aid : string) (po : process_outcome) (c : controller) : controller :=
  match PyDict.get aid (active_tasks c) with
  | Some t =>
      match aio_phase_of t, po with
      | Processing, _ =>
          let '(c1, meta', k) := run_agent_task_resume aid (aio_meta t) po c in
          with_active_tasks
            (PyDict.set aid (AioTask (aio_id t) meta' (Done (raised k))) (active_tasks c1)) c1
      | Scheduled, CancelledDuring =>
          (* cancelled before its first step: the body never runs *)
          with_active_tasks
            (PyDict.set aid (with_phase (Done (Some CancelledError)) t) (active_tasks c)) c
      | _, _ => c
      end
  | None => c
  end.

Definition callback (aid u : string) (c : controller) : controller :=
  match PyDict.get aid (active_tasks c) with
  | Some t =>
      match aio_phase_of t with
      | Done _ => fst (_handle_task_completion t u c)
      | _ => c
      end
  | None => c
  end.

Definition step (ev : event) (c : controller) : controller :=
  match ev with
  | EvAssign d r u => fst (assign_task d r u c)
  | EvLaunch u => if loop_alive c && launch_guard c then launch_one u c else c
  | EvUnitStart aid => unit_start aid c
  | EvUnitEnd aid po => unit_end aid po c
  | EvCallback aid u => callback aid u c
  | EvShutdownBegin => shutdown_begin c
  | EvShutdownFinish => shutdown_finish c
  end.

Definition run_events (evs : list event) (c : controller) : controller :=
  foldl (fun c ev => step ev c) c evs.

(** ** Notions used to state the properties *)

(** The record [assign_task] builds. *)
Definition new_task (req : details_map * Z * string) : task :=
  let '(d, r, u) := req in
  {| task_id := u; details := d; status := T_pending; retry_count := r; error := None |}.

(** A burst of [assign_task] calls with no dequeue in between. *)
Definition assign_all (reqs : list (details_map * Z * string)) (c : controller) : controller :=
  foldl (fun c req => let '(d, r, u) := req in fst (assign_task d r u c)) c reqs.

Definition is_retry (req : details_map * Z * string) : bool := 0 <? req.1.2.

(** [self.task_queue.popleft()] *)
Definition popleft (q : list task) : option (task * list task) :=
  match q with
  | [] => None
  | t :: q' => Some (t, q')
  end.

(** Sample uuids: the number [n] in eight digits, then a fixed tail. *)
Definition digit (n : nat) : ascii := ascii_of_nat (48 + n mod 10).

Fixpoint digits (k n : nat) : string :=
  match k with
  | O => ""
  | S k' => digits k' (n / 10) +:+ String (digit n) ""
  end.

Definition uuid_of (n : nat) : string := digits 8 n +:+ "-0000-4000-8000-000000000000".

(** The routing rules in words.  A field is present; the description
    mentions a keyword when the keyword occurs in its lower-cased text. *)
Definition has_field (k : string) (task_info : task_info_map) : Prop :=
  is_Some (task_info !! k).

Definition occurs_in (kw s : string) : Prop :=
  ∃ pre post, s = pre +:+ kw +:+ post.

Definition mentions (kw : string) (task_info : task_info_map) : Prop :=
  ∃ d, task_info !! "description" = Some (PStr d) ∧ occurs_in kw (Text.lower d).

(** The test of the description on details whose fields are text. *)
Definition description_mentions (kw : string) (d : details_map) : bool :=
  match d !! "description" with
  | Some s => Text.contains kw (Text.lower s)
  | None => false
  end.

(** Task details on which the routing rules do not raise: the rule on
    ['url'] comes first, and the others call [.lower()] on the description. *)
Definition description_is_text (task_info : task_info_map) : Prop :=
  match task_info !! "description" with
  | Some (PStr _) | None => True
  | Some _ => False
  end.

Definition routes_without_error (task_info : task_info_map) : Prop :=
  has_field "url" task_info ∨ description_is_text task_info.

(** Ordered rules, the first that applies wins. *)
Inductive inferred (task_info : task_info_map) : agent_class → Prop :=
| inferred_url :
    has_field "url" task_info →
    inferred task_info BrowserAgent
| inferred_create :
    ¬ has_field "url" task_info →
    mentions "create" task_info →
    inferred task_info ToolCreatorAgent
| inferred_code :
    ¬ has_field "url" task_info →
    ¬ mentions "create" task_info →
    has_field "code" task_info ∨ has_field "code_key" task_info →
    inferred task_info ToolExecutorAgent
| inferred_research :
    ¬ has_field "url" task_info →
    ¬ mentions "create" task_info →
    ¬ (has_field "code" task_info ∨ has_field "code_key" task_info) →
    mentions "find" task_info ∨ mentions "research" task_info ∨
      mentions "gather" task_info →
    inferred task_info InfoHunterAgent
| inferred_generic :
    ¬ has_field "url" task_info →
    ¬ mentions "create" task_info →
    ¬ (has_field "code" task_info ∨ has_field "code_key" task_info) →
    ¬ (mentions "find" task_info ∨ mentions "research" task_info ∨
       mentions "gather" task_info) →
    inferred task_info Agent.

(** What a finished unit leaves in the history: its task record with the
    final status, under the task id. *)
Definition final_status (po : process_outcome) : task_status :=
  match po with
  | CancelledDuring => T_cancelled
  | _ => T_completed
  end.

Definition history_entry (t : aio_task) (po : process_outcome) : string * task :=
  (task_id (aio_meta t), with_status (final_status po) (aio_meta t)).

(** The entries an event adds to the history: one when it resumes a unit
    that is processing, none otherwise. *)
Definition appended (ev : event) (c : controller) : list (string * task) :=
  match ev with
  | EvUnitEnd aid po =>
      match PyDict.get aid (active_tasks c) with
      | Some t =>
          match aio_phase_of t with
          | Processing => [history_entry t po]
          | _ => []
          end
      | None => []
      end
  | _ => []
  end.

(** All entries recorded along a run, oldest first. *)
Fixpoint all_recorded (evs : list event) (c : controller) : list (string * task) :=
  match evs with
  | [] => []
  | ev :: evs' => appended ev c ++ all_recorded evs' (step ev c)
  end.

(** A task that is assigned, launched, processed and called back. *)
Definition one_task_events (n : nat) (d : details_map) (po : process_outcome) : list event :=
  let aid := make_agent_id (hint_of d) (uuid_of (3 * n + 1)) in
  [EvAssign d 0 (uuid_of (3 * n)); EvLaunch (uuid_of (3 * n + 1));
   EvUnitStart aid; EvUnitEnd aid po; EvCallback aid (uuid_of (3 * n + 2))].

Definition n_tasks_events (n : nat) : list event :=
  flat_map (fun i => one_task_events i ∅ (Produced "ok")) (seq 0 n).

(** The in-flight map is well formed when every unit in it was created
    earlier, sits under a non-empty agent id that is registered, and no two
    entries hold the same asyncio task. *)
Definition units_ok (sp : nat) (ag : gmap string agent)
    (d : list (string * aio_task)) : Prop :=
  (∀ k t, In (k, t) d → (aio_id t < sp)%nat ∧ k ≠ "" ∧ is_Some (ag !! k)) ∧
  (∀ k1 t1 k2 t2, In (k1, t1) d → In (k2, t2) d → aio_id t1 = aio_id t2 → k1 = k2).

Definition wf (c : controller) : Prop :=
  units_ok (spawned c) (agents c) (active_tasks c).

(** Counting log lines. *)
Definition count_log (p : log_record → bool) (l : list log_record) : nat :=
  length (List.filter p l).

Definition is_creation (r : log_record) : bool :=
  match r with LogAgentCreated _ _ => true | _ => false end.

(** The agent id a launch registers is not in the registry yet (uuids do
    not repeat). *)
Definition launch_fresh (ev : event) (c : controller) : Prop :=
  match ev, task_queue c with
  | EvLaunch u, t :: _ =>
      loop_alive c && launch_guard c = true →
      at_capacity c = false →
      agents c !! make_agent_id (hint_of (details t)) u = None
  | _, _ => True
  end.

Fixpoint fresh_ids (evs : list event) (c : controller) : Prop :=
  match evs with
  | [] => True
  | ev :: evs' => launch_fresh ev c ∧ fresh_ids evs' (step ev c)
  end.


(** A run in which [shutdown] never gets to clear the registry. *)
Definition no_shutdown (evs : list event) : Prop :=
  Forall (fun ev => ev ≠ EvShutdownFinish) evs.

(** One attempt on the task at the head of the queue, whose processing
    fails: launch, first step, failure of [process_task], callback.  [ua] is
    the uuid drawn for the agent id, [ur] the one drawn by the callback if
    it re-enqueues. *)
Definition failing_attempt (d : details_map) (msg : string) (uu : string * string) : list event :=
  let aid := make_agent_id (hint_of d) uu.1 in
  [EvLaunch uu.1; EvUnitStart aid; EvUnitEnd aid (Failed msg); EvCallback aid uu.2].

(** A task is assigned once and every attempt on it fails. *)
Definition failing_run (d : details_map) (msg : string) (u0 : string)
    (us : list (string * string)) : list event :=
  EvAssign d 0 u0 :: flat_map (failing_attempt d msg) us.

Definition is_retrying (r : log_record) : bool :=
  match r with LogRetrying _ _ _ => true | _ => false end.

Definition is_giving_up (r : log_record) : bool :=
  match r with LogGivingUp _ _ => true | _ => false end.

(** Each call of [assign_task] logs one of these two lines. *)
Definition is_enqueue (r : log_record) : bool :=
  match r with LogAssigned _ | LogRequeued _ _ => true | _ => false end.

(** A configuration with one agent slot: a first task has been processed
    and called back, and a second task has been assigned. *)
Definition stuck_controller : controller :=
  run_events (one_task_events 0 ∅ (Produced "ok") ++ [EvAssign ∅ 0 (uuid_of 3)])
    (init 1 1).

(** The ids handed out by the external calls of [assign_task] in a run. *)
Definition assigned_ids (evs : list event) : list string :=
  flat_map (fun ev => match ev with EvAssign _ _ u => [u] | _ => [] end) evs.

Definition occurrences (tid : string) (h : list (string * task)) : nat :=
  length (List.filter (fun e => String.eqb e.1 tid) h).

(** "No task loss" as the specification words it: once the run loop has
    ended, every task id handed out by a call of [assign_task] has been
    recorded in the history exactly once.  What counts is every entry ever
    recorded: the ring keeps the last 50 of them. *)
Definition no_task_loss (evs : list event) (c0 : controller) : Prop :=
  let c := run_events evs c0 in
  loop_alive c = false →
  ∀ tid, In tid (assigned_ids evs) →
         occurrences tid (all_recorded evs c0) = 1%nat.


(** Two tasks for one agent slot; the controller is shut down while the
    first is being processed and the second waits in the queue. *)
Definition shutdown_with_a_queued_task : list event :=
  let aid := make_agent_id "default" (uuid_of 2) in
  [EvAssign ∅ 0 (uuid_of 0); EvAssign ∅ 0 (uuid_of 1); EvLaunch (uuid_of 2);
   EvUnitStart aid; EvShutdownBegin; EvUnitEnd aid CancelledDuring;
   EvCallback aid (uuid_of 3); EvShutdownFinish].

(** Where a task is before it is recorded: in the queue, or with a unit
    whose wrapper has not run to its end. *)
Definition live (u : aio_task) : bool :=
  match aio_phase_of u with
  | Done _ => false
  | _ => true
  end.

Definition units_where (p : aio_task → bool) (d : list (string * aio_task)) : nat :=
  length (List.filter (fun kv => p kv.2) d).

Definition is_unit_of (tid : string) (u : aio_task) : bool :=
  live u && String.eqb (task_id (aio_meta u)) tid.

Definition queued (tid : string) (c : controller) : nat :=
  length (List.filter (fun t => String.eqb (task_id t) tid) (task_queue c)).

Definition in_flight (tid : string) (c : controller) : nat :=
  units_where (is_unit_of tid) (active_tasks c).

(** The log line of a call of [assign_task] that handed out [tid]. *)
Definition enqueued_as (tid : string) (r : log_record) : bool :=
  match r with
  | LogAssigned u | LogRequeued u _ => String.eqb u tid
  | _ => false
  end.

(** The events that take a task out of sight are left aside: a launch
    whose agent cannot be created (the task is then put back under a new
    id) or whose agent id is already in use (uuids repeating), the
    cancellation of a unit before its first step (its wrapper never runs),
    and the end of [shutdown] while tasks are queued or units are not done
    (it clears the queue and the in-flight map). *)
Definition keeps_tasks (ev : event) (c : controller) : bool :=
  match ev with
  | EvLaunch u =>
      if loop_alive c && launch_guard c then
        match task_queue c with
        | t :: _ =>
            negb (at_capacity c) &&
            negb (bool_decide
                    (is_Some (agents c !! make_agent_id (hint_of (details t)) u)))
        | [] => true
        end
      else true
  | EvUnitEnd aid CancelledDuring =>
      match PyDict.get aid (active_tasks c) with
      | Some t => match aio_phase_of t with Scheduled => false | _ => true end
      | None => true
      end
  | EvShutdownFinish =>
      bool_decide (task_queue c = []) &&
      forallb (fun kv => negb (live kv.2)) (active_tasks c)
  | _ => true
  end.

Fixpoint all_keep_tasks (evs : list event) (c : controller) : bool :=
  match evs with
  | [] => true
  | ev :: evs' => keeps_tasks ev c && all_keep_tasks evs' (step ev c)
  end.

(** ** [MemorySystem] (memory.py)

    The in-memory cache and the two local backends: the JSON file, held in
    a dict that is written back to disk after each change, and the cache
    alone.  The Redis and ChromaDB backends are remote services and are
    left out. *)

(** [d.get(k)]: [None] for a missing key. *)
Definition dict_get (k : string) (d : gmap string py_value) : py_value :=
  default PNone (d !! k).

Inductive backend_kind := JsonFile | ShortTermOnly.

Record MemorySystem := Memory {
  backend_type : backend_kind;
  short_term_memory : gmap string py_value;
  backend_client : gmap string py_value
}.

(** [MemorySystem.store] *)
Definition store (key : string) (value : py_value) (is_short_term : bool)
    (m : MemorySystem) : MemorySystem :=
  let cache := <[key := value]> (short_term_memory m) in
  if is_short_term then Memory (backend_type m) cache (backend_client m)
  else
    match backend_type m with
    | JsonFile => Memory JsonFile cache (<[key := value]> (backend_client m))
    | ShortTermOnly => Memory ShortTermOnly cache (backend_client m)
    end.

(** [MemorySystem.retrieve] *)
Definition retrieve (key : string) (check_long_term_if_missing : bool)
    (m : MemorySystem) : MemorySystem * py_value :=
  match dict_get key (short_term_memory m) with
  | PNone =>
      if check_long_term_if_missing then
        match backend_type m with
        | JsonFile =>
            match dict_get key (backend_client m) with
            | PNone => (m, PNone)
            | value =>
                (Memory JsonFile (<[key := value]> (short_term_memory m)) (backend_client m),
                 value)
            end
        | ShortTermOnly => (m, PNone)
        end
      else (m, PNone)
  | value => (m, value)
  end.

(** [MemorySystem.delete] *)
Definition delete_key (key : string) (m : MemorySystem) : MemorySystem * bool :=
  let deleted_short := dict_get key (short_term_memory m) in
  let cache := delete key (short_term_memory m) in
  match backend_type m with
  | JsonFile =>
      match backend_client m !! key with
      | Some _ => (Memory JsonFile cache (delete key (backend_client m)), true)
      | None => (Memory JsonFile cache (backend_client m), truthy deleted_short)
      end
  | ShortTermOnly => (Memory ShortTermOnly cache (backend_client m), truthy deleted_short)
  end.

(** What [retrieve] answers, whatever it caches on the way. *)
Definition lookup_memory (key : string) (m : MemorySystem) : py_value :=
  snd (retrieve key true m).

(** The value of a key by the layers: the cached value unless it is
    [None], else what the JSON file backend holds. *)
Definition layered_value (key : string) (m : MemorySystem) : py_value :=
  match dict_get key (short_term_memory m) with
  | PNone =>
      match backend_type m with
      | JsonFile => dict_get key (backend_client m)
      | ShortTermOnly => PNone
      end
  | v => v
  end.

(** The JSON file.  What [json.dump] followed by [json.load] makes of a
    value: [None] and strings come back as they are; for the other objects
    [json_cycle] stands for the library (a tuple comes back as a list), with
    [None] when [json.dump] raises (on a set).  [_save_json] writes the
    whole dict; when one value cannot be serialised [json.dump] raises part
    way through, the exception is caught and logged, and the file is left
    truncated: whoever loads it then starts from the empty dict. *)
Definition json_image (json_cycle : py_value → option py_value)
    (v : py_value) : option py_value :=
  match v with
  | PObj _ _ => json_cycle v
  | _ => Some v
  end.

Definition json_ok (json_cycle : py_value → option py_value)
    (d : gmap string py_value) : Prop :=
  map_Forall (fun _ v => is_Some (json_image json_cycle v)) d.

Definition saved (json_cycle : py_value → option py_value)
    (d : gmap string py_value) : gmap string py_value :=
  if decide (map_Forall (fun _ v => is_Some (json_image json_cycle v)) d)
  then omap (json_image json_cycle) d
  else ∅.

(** A second [MemorySystem] opened on the same backend after the first one
    has saved it: the cache is empty and, with the JSON file backend, the
    dict is what [json.load] reads from the file. *)
Definition reopened (json_cycle : py_value → option py_value)
    (m : MemorySystem) : MemorySystem :=
  match backend_type m with
  | JsonFile => Memory JsonFile ∅ (saved json_cycle (backend_client m))
  | ShortTermOnly => Memory ShortTermOnly ∅ ∅
  end.

(** An instance of the library's behaviour, for the examples. *)
Definition json_example (v : py_value) : option py_value :=
  match v with
  | PObj tn b =>
      if decide (tn = "tuple") then Some (PObj "list" b)
      else if decide (tn = "set") then None
      else Some v
  | _ => Some v
  end.

(** ** [Agent.report_back] and the end of [Agent.receive_task] *)

(** [f"{self.agent_id}_last_result"] *)
Definition last_result_key (aid : string) : string := aid +:+ "_last_result".

Definition report_back (aid : string) (result : py_value) (m : MemorySystem) : MemorySystem :=
  match result with
  | PNone => m
  | _ => store (last_result_key aid) result false m
  end.

(** [receive_task] from the resumption on, with the memory system: the
    [finally] block reports [result if self.state == "finished" else error]. *)
Definition receive_task_resume_mem (po : process_outcome) (a : agent)
    (m : MemorySystem) : agent * completion * MemorySystem :=
  let result := match po with Produced r => PStr r | _ => PNone end in
  let error := match po with Failed msg => PStr msg | _ => PNone end in
  let '(a', k) := receive_task_resume po a in
  let reported := match state a' with S_finished => result | _ => error end in
  (a', k, report_back (agent_id a) reported m).

(** ** [MasterController._update_status_in_memory] *)

Definition status_memory_key : string := "tac_controller_status".

(** [type(agent).__name__] *)
Definition class_name (cls : agent_class) : string :=
  match cls with
  | BrowserAgent => "BrowserAgent"
  | ToolCreatorAgent => "ToolCreatorAgent"
  | ToolExecutorAgent => "ToolExecutorAgent"
  | InfoHunterAgent => "InfoHunterAgent"
  | Agent => "Agent"
  end.

(** The dict [status_data]; [T] is the type of the clock reading. *)
Record status_data (T : Type) := StatusData {
  sd_timestamp : T;
  sd_task_queue_size : nat;
  sd_pending_tasks : list task;
  sd_active_agents : gmap string (string * agent_state * option details_map);
  sd_active_agent_count : nat;
  sd_max_concurrent_agents : Z;
  sd_completed_tasks_history : list (string * task)
}.
Arguments StatusData {T}.
Arguments sd_timestamp {T}.
Arguments sd_task_queue_size {T}.
Arguments sd_pending_tasks {T}.
Arguments sd_active_agents {T}.
Arguments sd_active_agent_count {T}.
Arguments sd_max_concurrent_agents {T}.
Arguments sd_completed_tasks_history {T}.

Definition snapshot {T} (now : T) (c : controller) : status_data T :=
  {| sd_timestamp := now;
     sd_task_queue_size := length (task_queue c);
     sd_pending_tasks := task_queue c;
     sd_active_agents :=
       (fun a => (class_name (agent_cls a), state a, current_task a)) <$> agents c;
     sd_active_agent_count := size (agents c);
     sd_max_concurrent_agents := max_concurrent_agents c;
     sd_completed_tasks_history := completed_tasks_history c |}.

(** [json_dumps] stands for [json.dumps]; [None] is an exception raised by
    it, which the method catches and logs. *)
Definition _update_status_in_memory {T} (clear_on_shutdown : bool) (now : T)
    (json_dumps : status_data T → option string) (c : controller)
    (m : MemorySystem) : MemorySystem :=
  if clear_on_shutdown then fst (delete_key status_memory_key m)
  else
    match json_dumps (snapshot now c) with
    | Some js => store status_memory_key (PStr js) true m
    | None => m
    end.

(** ** Task records along their life *)

(** The status a unit's task record may show in each phase of the unit. *)
Definition unit_status_ok (u : aio_task) : Prop :=
  error (aio_meta u) = None ∧
  match aio_phase_of u with
  | Scheduled | Processing => status (aio_meta u) = T_running
  | Done None => status (aio_meta u) = T_completed
  | Done (Some CancelledError) =>
      status (aio_meta u) = T_cancelled ∨ status (aio_meta u) = T_running
  | Done (Some (Exception _)) => False
  end.

Definition lifecycle_ok (c : controller) : Prop :=
  (∀ t, In t (task_queue c) → status t = T_pending ∧ error t = None) ∧
  (∀ aid u, In (aid, u) (active_tasks c) → unit_status_ok u) ∧
  (∀ e, In e (completed_tasks_history c) →
        e.1 = task_id e.2 ∧ error e.2 = None ∧
        (status e.2 = T_completed ∨ status e.2 = T_cancelled)).

(** ** The retry budget *)

(** An [assign_task] call from outside the controller leaves [retry_count]
    at its default. *)
Definition first_assignment (ev : event) : bool :=
  match ev with
  | EvAssign _ r _ => r =? 0
  | _ => true
  end.

Definition within_budget (R : Z) (t : task) : Prop :=
  0 ≤ retry_count t ≤ Z.max 0 R.

Definition agents_within_budget (R : Z) (ag : gmap string agent) : Prop :=
  ∀ aid a meta,
    ag !! aid = Some a → _task_meta_for_callback a = Some meta → within_budget R meta.

(** Every task record the controller holds: in the queue, in the hands of a
    unit, attached to an agent for the callback, or in the history. *)
Definition retries_ok (R : Z) (c : controller) : Prop :=
  max_task_retries c = R ∧
  (∀ t, In t (task_queue c) → within_budget R t) ∧
  (∀ aid u, In (aid, u) (active_tasks c) → within_budget R (aio_meta u)) ∧
  agents_within_budget R (agents c) ∧
  (∀ e, In e (completed_tasks_history c) → within_budget R e.2).

(** ** The specialised agents: [process_task]

    [ToolCreatorAgent], [ToolExecutorAgent] and [InfoHunterAgent] inherit
    [receive_task] and [report_back] and override [process_task].  What
    they get from outside is a parameter: the text the language model
    generates, the outcome of writing the file, the output of the
    subprocess.  A call that can be cancelled while it waits answers
    [None] then.  As everywhere, the fields of the task details are text. *)

(** The line feed of the Python string literals. *)
Definition nl : string := String (ascii_of_nat 10) "".

(** [bool(x)] for [x] a string or [None]. *)
Definition str_truthy (x : option string) : bool :=
  match x with
  | Some s => negb (bool_decide (s = ""))
  | None => false
  end.

(** [x or y] *)
Definition py_or (x y : option string) : option string :=
  if str_truthy x then x else y.

(** [f"{self.agent_id}_generated_tool_{description[:20]}..."] *)
Definition generated_tool_key (aid description : string) : string :=
  aid +:+ "_generated_tool_" +:+ Text.take_chars 20 description +:+ "...".

(** [ToolCreatorAgent.process_task].  [llm_ready] is [self.llm and
    self.llm.client]; [generate_tool_code] catches every exception and
    answers a text; [save] is the attempt to write the file, answering the
    text of the exception when it fails. *)
Definition creator_process_task (aid : string) (llm_ready : bool)
    (generate_tool_code : string → option string)
    (save : string → string → option string)
    (task_details : details_map) (m : MemorySystem) : MemorySystem * process_outcome :=
  let description := task_details !! "description" in
  let target_filename := task_details !! "filename" in
  if negb (str_truthy description) then
    (m, Produced "Error: Missing 'description' for ToolCreatorAgent task.")
  else if negb llm_ready then
    (m, Produced "Error: LLM client not available for ToolCreatorAgent.")
  else
    let description := default "" description in
    match generate_tool_code description with
    | None => (m, CancelledDuring)
    | Some tool_code =>
        if String.prefix "Error:" tool_code then (m, Produced tool_code)
        else
          let result_message :=
            "Generated tool code for: '" +:+ description +:+ "'" +:+ nl +:+
            "```python" +:+ nl +:+ tool_code +:+ nl +:+ "```" in
          let result_message :=
            if str_truthy target_filename then
              let target_filename := default "" target_filename in
              match save target_filename tool_code with
              | None => result_message +:+ nl +:+ "Saved to: " +:+ target_filename
              | Some e => result_message +:+ nl +:+ "Error saving to file: " +:+ e
              end
            else result_message in
          (store (generated_tool_key aid description) (PStr tool_code) false m,
           Produced result_message)
    end.

(** [ToolExecutorAgent.process_task].  [execute_code_safely] turns every
    failure of the subprocess into a text. *)
Definition executor_process_task (execute_code_safely : string → option string)
    (task_details : details_map) (m : MemorySystem) : MemorySystem * process_outcome :=
  let code_to_execute :=
    match task_details !! "code" with Some s => PStr s | None => PNone end in
  let code_key := task_details !! "code_key" in
  let '(m, code_to_execute) :=
    if negb (truthy code_to_execute) && str_truthy code_key
    then retrieve (default "" code_key) true m
    else (m, code_to_execute) in
  if negb (truthy code_to_execute) then
    (m, Produced "Error: No code provided or found in memory for ToolExecutorAgent task.")
  else
    match code_to_execute with
    | PStr code_str =>
        (m, match execute_code_safely code_str with
            | Some result => Produced result
            | None => CancelledDuring
            end)
    | PObj type_name _ =>
        (m, Produced ("Error: Code to execute must be a string, but got type <class '"
                      +:+ type_name +:+ "'>."))
    | PNone =>
        (m, Produced "Error: No code provided or found in memory for ToolExecutorAgent task.")
    end.

(** [InfoHunterAgent.process_task].  [hunt] is what follows the check of
    the query: planning, the simulated search and the synthesis. *)
Definition info_hunter_process_task (hunt : string → process_outcome)
    (task_details : details_map) : process_outcome :=
  let query := py_or (task_details !! "description") (task_details !! "query") in
  if negb (str_truthy query) then
    Produced "Error: Missing query/description for InfoHunterAgent task."
  else hunt (default "" query).

(** What the subprocess answers, as the outcome of [process_task]. *)
Definition ran (execute_code_safely : string → option string) (code : string)
    : process_outcome :=
  match execute_code_safely code with
  | Some result => Produced result
  | None => CancelledDuring
  end.

(** ** The command line (cli.py)

    [main] after the controller has been built: the initial task is worked
    out from [--task] and [--details], assigned, and [run] is entered.
    [loads] is [json.loads] followed by the test that the result is a dict
    (whose fields, as everywhere, are text). *)

Inductive json_parse :=
| Malformed
| NotAnObject
| JsonObject (d : details_map).

Inductive cli_result :=
| Exit (code : Z)
| Started (c : controller).

Definition main (loads : string → json_parse) (task details : option string)
    (u : string) (controller : controller) : cli_result :=
  let resolved : option (option details_map) :=
    if str_truthy details then
      match loads (default "" details) with
      | JsonObject d => Some (Some d)
      | Malformed | NotAnObject => None
      end
    else if str_truthy task then
      Some (Some {[ "description" := default "" task ]})
    else Some None in
  match resolved with
  | None => Exit 1
  | Some initial_task_details =>
      let controller :=
        match initial_task_details with
        | Some d =>
            if decide (d = ∅) then controller
            else fst (assign_task d 0 u controller)
        | None => controller
        end in
      (* await controller.run(): self.running = True *)
      Started (with_running true controller)
  end.

(** ** The dashboard (dashboard.py)

    [display_dashboard] up to the decoding of the status; what follows only
    lays the decoded data out on the page.  [json_loads] stands for
    [json.loads], [None] for the exception it raises on malformed text.  The
    dashboard runs in a process of its own, on a memory system of its own. *)

Inductive dashboard_view (S : Type) :=
| MemoryNotAvailable
| NoStatusData
| DecodeFailed
| ProcessingFailed
| StatusShown (status : S).
Arguments MemoryNotAvailable {S}.
Arguments NoStatusData {S}.
Arguments DecodeFailed {S}.
Arguments ProcessingFailed {S}.
Arguments StatusShown {S}.

Definition display_dashboard {S} (json_loads : string → option S)
    (memory_system : option MemorySystem) : option MemorySystem * dashboard_view S :=
  match memory_system with
  | None => (None, MemoryNotAvailable)
  | Some m =>
      let '(m, status_json) := retrieve status_memory_key true m in
      if negb (truthy status_json) then (Some m, NoStatusData)
      else
        match status_json with
        | PStr s =>
            match json_loads s with
            | Some status => (Some m, StatusShown status)
            | None => (Some m, DecodeFailed)
            end
        | _ => (Some m, ProcessingFailed)   (* TypeError from json.loads *)
        end
  end.

(** * Properties *)

(** ** Field updates and projections *)

Lemma assign_task_queue d r u c :
  task_queue (fst (assign_task d r u c)) =
  if 0 <? r then new_task (d, r, u) :: task_queue c
  else task_queue c ++ [new_task (d, r, u)].
Proof. unfold assign_task. destruct (0 <? r); reflexivity. Qed.


Lemma assign_task_frame d r u c :
  let c' := fst (assign_task d r u c) in
  agents c' = agents c ∧ active_tasks c' = active_tasks c ∧
  completed_tasks_history c' = completed_tasks_history c ∧
  max_concurrent_agents c' = max_concurrent_agents c ∧
  max_task_retries c' = max_task_retries c ∧
  running c' = running c ∧ spawned c' = spawned c.
Proof. unfold assign_task. destruct (0 <? r); simpl; auto 10. Qed.

(** ** Queue order *)

Lemma assign_all_queue reqs : ∀ c,
  task_queue (assign_all reqs c) =
  rev (new_task <$> filter (fun q => is_retry q = true) reqs) ++ task_queue c ++
  (new_task <$> filter (fun q => is_retry q ≠ true) reqs).
Proof.
  induction reqs as [|[[d r] u] reqs IH]; intros c.
  - simpl. by rewrite app_nil_r.
  - change (assign_all (((d, r), u) :: reqs) c)
      with (assign_all reqs (fst (assign_task d r u c))).
    rewrite IH, assign_task_queue.
    destruct (0 <? r) eqn:Hr.
    + rewrite (filter_cons_True (fun q => is_retry q = true)) by exact Hr.
      rewrite (filter_cons_False (fun q => is_retry q ≠ true))
        by (intros H; by apply H).
      rewrite fmap_cons. simpl. by rewrite <- !app_assoc.
    + rewrite (filter_cons_False (fun q => is_retry q = true))
        by (unfold is_retry; simpl; rewrite Hr; done).
      rewrite (filter_cons_True (fun q => is_retry q ≠ true))
        by (unfold is_retry; simpl; rewrite Hr; done).
      rewrite fmap_cons. by rewrite <- !app_assoc.
Qed.

Lemma filter_all_fresh (reqs : list (details_map * Z * string)) :
  Forall (fun q => q.1.2 = 0) reqs →
  filter (fun q => is_retry q = true) reqs = [] ∧
  filter (fun q => is_retry q ≠ true) reqs = reqs.
Proof.
  induction 1 as [|q l Hq _ [IH1 IH2]]; [done|].
  assert (Hr : is_retry q = false) by (unfold is_retry; by rewrite Hq).
  split.
  - rewrite filter_cons_False by (rewrite Hr; discriminate). exact IH1.
  - rewrite filter_cons_True by (rewrite Hr; discriminate). by rewrite IH2.
Qed.

Lemma filter_all_retries (reqs : list (details_map * Z * string)) :
  Forall (fun q => 0 < q.1.2) reqs →
  filter (fun q => is_retry q = true) reqs = reqs ∧
  filter (fun q => is_retry q ≠ true) reqs = [].
Proof.
  induction 1 as [|q l Hq _ [IH1 IH2]]; [done|].
  assert (Hr : is_retry q = true) by (unfold is_retry; by apply Z.ltb_lt).
  split.
  - rewrite filter_cons_True by exact Hr. by rewrite IH1.
  - rewrite filter_cons_False by (rewrite Hr; intros H; by apply H). exact IH2.
Qed.

(** C7.  [assign_task] with [retry_count = 0] puts the new record at the tail
    of the queue and with [retry_count > 0] at the head, so that [popleft]
    returns a retry before everything that was queued.  For a burst of calls
    with no dequeue in between, the queue ends up as: the retries, newest
    first (LIFO among themselves), then what was queued before, then the
    fresh tasks of the burst in the order of their calls (FIFO). *)
Theorem assign_task_order (c : controller) :
  (∀ d u, task_queue (fst (assign_task d 0 u c)) = task_queue c ++ [new_task (d, 0, u)]) ∧
  (∀ d r u, 0 < r →
     task_queue (fst (assign_task d r u c)) = new_task (d, r, u) :: task_queue c ∧
     popleft (task_queue (fst (assign_task d r u c))) =
       Some (new_task (d, r, u), task_queue c)) ∧
  (∀ reqs, Forall (fun q => q.1.2 = 0) reqs →
     task_queue (assign_all reqs c) = task_queue c ++ (new_task <$> reqs)) ∧
  (∀ reqs, Forall (fun q => 0 < q.1.2) reqs →
     task_queue (assign_all reqs c) = rev (new_task <$> reqs) ++ task_queue c) ∧
  (∀ reqs,
     task_queue (assign_all reqs c) =
     rev (new_task <$> filter (fun q => is_retry q = true) reqs) ++ task_queue c ++
     (new_task <$> filter (fun q => is_retry q ≠ true) reqs)).
Proof.
  split; [|split; [|split; [|split]]].
  - intros d u. by rewrite assign_task_queue.
  - intros d r u Hr. rewrite assign_task_queue.
    apply Z.ltb_lt in Hr. by rewrite Hr.
  - intros reqs Hall. rewrite assign_all_queue.
    rewrite (proj1 (filter_all_fresh reqs Hall)), (proj2 (filter_all_fresh reqs Hall)).
    done.
  - intros reqs Hall. rewrite assign_all_queue.
    rewrite (proj1 (filter_all_retries reqs Hall)), (proj2 (filter_all_retries reqs Hall)).
    simpl. by rewrite app_nil_r.
  - intros reqs. apply assign_all_queue.
Qed.

Lemma assign_task_order_witness :
  let c := fst (assign_task ∅ 0 (uuid_of 0) (init 5 1)) in
  let burst := [(∅, 1, uuid_of 1); (∅, 2, uuid_of 2)] in
  task_queue (assign_all burst c) =
  [new_task (∅, 2, uuid_of 2); new_task (∅, 1, uuid_of 1); new_task (∅, 0, uuid_of 0)].
Proof.
  intros c burst.
  destruct (assign_task_order c) as (_ & _ & _ & Hburst & _).
  rewrite (Hburst burst).
  - reflexivity.
  - repeat constructor; simpl; lia.
Defined.

(** ** Routing *)

Lemma append_nil (s : string) : "" +:+ s = s.
Proof. reflexivity. Qed.

Lemma append_cons (a : ascii) (s t : string) :
  String a s +:+ t = String a (s +:+ t).
Proof. reflexivity. Qed.

Lemma prefix_spec (p s : string) :
  String.prefix p s = true ↔ ∃ post, s = p +:+ post.
Proof.
  revert s. induction p as [|a p IH]; intros s.
  - split; [intros _; by exists s | intros _; by destruct s].
  - destruct s as [|b s]; simpl.
    + split; [done | intros [post H]; discriminate H].
    + destruct (Ascii.ascii_dec a b) as [->|Hne].
      * rewrite IH. split; intros [post H]; exists post.
        -- by rewrite append_cons, H.
        -- rewrite append_cons in H. by injection H.
      * split; [done | intros [post H]; rewrite append_cons in H; injection H; congruence].
Qed.

Lemma contains_spec (kw s : string) :
  Text.contains kw s = true ↔ occurs_in kw s.
Proof.
  induction s as [|b s IH].
  - change (Text.contains kw "") with (String.prefix kw "" || false).
    rewrite orb_false_r, prefix_spec. split.
    + intros [post H]. by exists "", post.
    + intros ([|a pre] & post & H); [by exists post|discriminate H].
  - change (Text.contains kw (String b s))
      with (String.prefix kw (String b s) || Text.contains kw s).
    rewrite orb_true_iff, prefix_spec, IH. split.
    + intros [[post H] | (pre & post & H)].
      * by exists "", post.
      * exists (String b pre), post. by rewrite append_cons, H.
    + intros ([|a pre] & post & H).
      * left. by exists post.
      * right. exists pre, post. rewrite append_cons in H. by injection H.
Qed.

Lemma has_key_spec k d : has_key k d = true ↔ has_field k d.
Proof. unfold has_key, has_field. apply bool_decide_eq_true. Qed.

Lemma description_has_spec kw d b :
  description_has kw d = Some b → (b = true ↔ mentions kw d).
Proof.
  unfold description_has, mentions.
  destruct (d !! "description") as [[|s|tn t]|]; intros [= <-].
  - rewrite contains_spec. split; [by exists s | by intros (s' & [= <-] & H)].
  - split; [done | by intros (s' & [=] & _)].
Qed.

Lemma description_has_raises kw d :
  description_has kw d = None → ∀ kw', description_has kw' d = None ∧ ¬ mentions kw' d.
Proof.
  unfold description_has, mentions.
  destruct (d !! "description") as [[|s|tn t]|]; intros [=] kw';
    (split; [done | by intros (s' & [=] & _)]).
Qed.

Lemma lookup_as_task_info (d : details_map) k :
  as_task_info d !! k = PStr <$> d !! k.
Proof. unfold as_task_info. apply lookup_fmap. Qed.

Lemma description_has_text kw (d : details_map) :
  description_has kw (as_task_info d) = Some (description_mentions kw d).
Proof.
  unfold description_has, description_mentions. rewrite lookup_as_task_info.
  by destruct (d !! "description").
Qed.

Lemma has_key_text k (d : details_map) :
  has_key k (as_task_info d) = bool_decide (is_Some (d !! k)).
Proof.
  unfold has_key. rewrite lookup_as_task_info.
  apply bool_decide_ext. by destruct (d !! k); split; intros [? ?].
Qed.

Lemma effective_agent_type_total t ti :
  routes_without_error ti → is_Some (effective_agent_type t ti).
Proof.
  intros Hok. unfold effective_agent_type.
  destruct (decide (t = "default")); [|done].
  destruct (has_key "url" ti) eqn:Hu; [done|].
  destruct Hok as [Hurl|Htext].
  { apply has_key_spec in Hurl. congruence. }
  unfold description_has. unfold description_is_text in Htext.
  destruct (ti !! "description") as [[|s|tn tr]|]; try done;
    repeat (case_match; try done).
Qed.

Lemma routes_text (d : details_map) : routes_without_error (as_task_info d).
Proof.
  right. unfold description_is_text. rewrite lookup_as_task_info.
  by destruct (d !! "description").
Qed.

Lemma effective_agent_type_text t (d : details_map) :
  ∃ e, effective_agent_type t (as_task_info d) = Some e.
Proof. apply effective_agent_type_total, routes_text. Qed.

Lemma class_of_default (task_info : task_info_map) (e : string) (k : agent_class) :
  effective_agent_type "default" task_info = Some e →
  (inferred task_info k ↔ class_of e = k).
Proof.
  unfold effective_agent_type. rewrite decide_True by done.
  pose proof (has_key_spec "url" task_info) as Hu.
  pose proof (has_key_spec "code" task_info) as Hk1.
  pose proof (has_key_spec "code_key" task_info) as Hk2.
  destruct (has_key "url" task_info).
  { intros [= <-]. split; [inversion 1; subst; try reflexivity; exfalso; intuition congruence
                          | intros <-; apply inferred_url; intuition congruence]. }
  destruct (description_has "create" task_info) as [bc|] eqn:Ec; [|done].
  pose proof (description_has_spec _ _ _ Ec) as Hc.
  destruct bc.
  { intros [= <-]. split; [inversion 1; subst; try reflexivity; exfalso; intuition congruence
                          | intros <-; apply inferred_create; intuition congruence]. }
  destruct (has_key "code" task_info), (has_key "code_key" task_info); simpl;
    try (intros [= <-];
         split; [inversion 1; subst; try reflexivity; exfalso; intuition congruence
                | intros <-; apply inferred_code; intuition congruence]).
  destruct (description_has "find" task_info) as [bf|] eqn:Ef; [|done].
  destruct (description_has "research" task_info) as [br|] eqn:Er; [|done].
  destruct (description_has "gather" task_info) as [bg|] eqn:Eg; [|done].
  pose proof (description_has_spec _ _ _ Ef) as Hf.
  pose proof (description_has_spec _ _ _ Er) as Hr.
  pose proof (description_has_spec _ _ _ Eg) as Hg.
  destruct bf, br, bg; simpl; intros [= <-];
    (split; [ inversion 1; subst; try reflexivity; exfalso; intuition congruence
            | intros <-; first
                [ apply inferred_research; intuition congruence
                | apply inferred_generic; intuition congruence ] ]).
Qed.

(** With the type hint ["default"] and room in the registry, on task
    details whose ['description'] is a string or is missing (or that have a
    ['url']), [_create_agent] registers and returns an agent whose class
    follows the ordered rules: a ['url'] field gives the browser agent; else
    a description mentioning "create" the tool creator; else a ['code'] or
    ['code_key'] field the tool executor; else a description mentioning
    "find", "research" or "gather" the info hunter; otherwise the generic
    [Agent].  (Keywords are looked for in the lower-cased description.) *)
Lemma create_agent_default_routing (task_info : task_info_map) (u : string)
    (c : controller) :
  at_capacity c = false →
  routes_without_error task_info →
  ∃ c' a, _create_agent "default" task_info u c = Some (c', Some a) ∧
          agents c' !! agent_id a = Some a ∧
          ∀ k, inferred task_info k ↔ agent_cls a = k.
Proof.
  intros Hcap Hok. unfold _create_agent. rewrite Hcap.
  destruct (effective_agent_type_total "default" task_info Hok) as [e He].
  rewrite He. eexists _, _. split; [reflexivity|]. split.
  - simpl. destruct (class_of e); simpl; apply lookup_insert_eq.
  - intros k. simpl. by apply class_of_default.
Qed.

Lemma create_agent_default_routing_example :
  ∃ c' a, _create_agent "default"
            {[ "description" := PStr "Create a tool"; "code" := PStr "print(1)" ]}
            (uuid_of 7) (init 5 1) = Some (c', Some a) ∧
          agent_cls a = ToolCreatorAgent.
Proof.
  destruct (create_agent_default_routing
              {[ "description" := PStr "Create a tool"; "code" := PStr "print(1)" ]}
              (uuid_of 7) (init 5 1)) as (c' & a & Ha & _ & Hk).
  - reflexivity.
  - right. reflexivity.
  - exists c', a. split; [exact Ha|].
    apply Hk. apply inferred_create.
    + intros [x Hx]. vm_compute in Hx. discriminate Hx.
    + exists "Create a tool". split; [reflexivity|].
      exists "", " a tool". reflexivity.
Defined.

(** C8.  The rules are not what the code does on every task: the tests of
    the description call [.lower()] on whatever sits under ['description'].
    For the details [{'description': None, 'code': 'print(1)'}] the rules
    as stated select the tool executor (no url, no description containing
    "create", a ['code'] field), and for [{'description': <an object>}]
    the generic agent; on both, with the hint ["default"] and room in the
    registry, [_create_agent] raises and creates no agent. *)
Theorem non_text_description_raises (u type_name : string) (truth : bool) :
  let with_none : task_info_map :=
    {[ "description" := PNone; "code" := PStr "print(1)" ]} in
  let with_object : task_info_map := {[ "description" := PObj type_name truth ]} in
  inferred with_none ToolExecutorAgent ∧
  _create_agent "default" with_none u (init 5 1) = None ∧
  inferred with_object Agent ∧
  _create_agent "default" with_object u (init 5 1) = None.
Proof.
  intros with_none with_object.
  assert (Hnone : ∀ kw, ¬ mentions kw with_none).
  { intros kw (s & Hs & _). vm_compute in Hs. discriminate Hs. }
  assert (Hobj : ∀ kw, ¬ mentions kw with_object).
  { intros kw (s & Hs & _). unfold with_object in Hs.
    rewrite lookup_singleton_eq in Hs. discriminate Hs. }
  assert (Hf : ∀ k, k ≠ "description" → ¬ has_field k with_object).
  { intros k Hk [x Hx]. unfold with_object in Hx.
    by rewrite lookup_singleton_ne in Hx. }
  split; [|split; [|split]].
  - apply inferred_code; [|apply Hnone|].
    + intros [x Hx]. vm_compute in Hx. discriminate Hx.
    + left. exists (PStr "print(1)"). reflexivity.
  - reflexivity.
  - apply inferred_generic.
    + by apply Hf.
    + apply Hobj.
    + intros [H|H]; revert H; by apply Hf.
    + intros [H|[H|H]]; revert H; apply Hobj.
  - unfold _create_agent, effective_agent_type, description_has, has_key, with_object.
    simpl. rewrite lookup_singleton_ne by done. rewrite lookup_singleton_eq.
    rewrite bool_decide_eq_false_2 by (by intros [? ?]). reflexivity.
Qed.

(** ** Effects of the operations on the controller's fields *)

Ltac unfold_ops :=
  unfold step, launch_one, _create_agent, unit_start, unit_end, callback,
    _handle_task_completion, retry_decision, run_agent_task_begin,
    run_agent_task_resume, receive_agent_update, receive_task_resume,
    receive_task_begin, assign_task, shutdown_begin, shutdown_finish.

Ltac crush := unfold_ops; repeat (case_match; simpl in *; simplify_eq); try done.

Lemma run_events_cons ev evs c :
  run_events (ev :: evs) c = run_events evs (step ev c).
Proof. reflexivity. Qed.

Lemma run_events_app evs1 evs2 c :
  run_events (evs1 ++ evs2) c = run_events evs2 (run_events evs1 c).
Proof. unfold run_events. apply foldl_app. Qed.

Lemma step_limits ev c :
  max_concurrent_agents (step ev c) = max_concurrent_agents c ∧
  max_task_retries (step ev c) = max_task_retries c.
Proof. crush. Qed.

Lemma run_events_limits evs : ∀ c,
  max_concurrent_agents (run_events evs c) = max_concurrent_agents c ∧
  max_task_retries (run_events evs c) = max_task_retries c.
Proof.
  induction evs as [|ev evs IH]; intros c; [done|].
  rewrite run_events_cons.
  destruct (IH (step ev c)) as [-> ->]. apply step_limits.
Qed.

(** ** The completion history *)

Lemma step_history ev c :
  completed_tasks_history (step ev c) =
  foldl (fun h e => deque_append history_maxlen e h)
    (completed_tasks_history c) (appended ev c).
Proof. unfold appended, history_entry. crush. Qed.




Lemma lastn_deque_append {A} (n : nat) (x : A) (l : list A) :
  (0 < n)%nat → deque_append n x (lastn n l) = lastn n (l ++ [x]).
Proof.
  intros Hn. unfold deque_append, lastn.
  rewrite !length_app, length_drop. simpl.
  destruct (decide (length l < n)%nat) as [Hlt|Hge].
  - replace (length l - n)%nat with 0%nat by lia.
    replace (length l + 1 - n)%nat with 0%nat by lia.
    rewrite !drop_0.
    assert ((n <? length l - 0 + 1)%nat = false) as -> by (apply Nat.ltb_ge; lia).
    reflexivity.
  - assert ((n <? length l - (length l - n) + 1)%nat = true) as ->
      by (apply Nat.ltb_lt; lia).
    replace (length l + 1 - n)%nat with (S (length l - n)) by lia.
    rewrite <- drop_app_le by lia.
    generalize (length l - n)%nat as k. intros k.
    change (tail (drop k (l ++ [x]))) with (drop 1 (drop k (l ++ [x]))).
    rewrite drop_drop. f_equal. lia.
Qed.

Lemma history_lastn evs : ∀ c L,
  completed_tasks_history c = lastn history_maxlen L →
  completed_tasks_history (run_events evs c) =
  lastn history_maxlen (L ++ all_recorded evs c).
Proof.
  induction evs as [|ev evs IH]; intros c L HL.
  - simpl. by rewrite app_nil_r.
  - rewrite run_events_cons. simpl all_recorded. rewrite app_assoc.
    apply IH. rewrite step_history, HL.
    generalize (appended ev c). intros es. clear. revert L.
    induction es as [|e es IHes]; intros L; simpl.
    + by rewrite app_nil_r.
    + rewrite lastn_deque_append by (unfold history_maxlen; lia).
      rewrite IHes. by rewrite <- app_assoc.
Qed.



(** ** The agent registry *)

Lemma size_insert_present (m : gmap string agent) k a b :
  m !! k = Some a → size (<[k := b]> m) = size m.
Proof. intros H. by rewrite map_size_insert_Some. Qed.

Lemma size_insert_le (m : gmap string agent) k b :
  (size (<[k := b]> m) ≤ S (size m))%nat.
Proof. rewrite map_size_insert. destruct (m !! k); simpl; lia. Qed.

Lemma at_capacity_true c :
  at_capacity c = true ↔ max_concurrent_agents c ≤ Z.of_nat (size (agents c)).
Proof. unfold at_capacity. apply Z.leb_le. Qed.

Lemma at_capacity_false c :
  at_capacity c = false ↔ Z.of_nat (size (agents c)) < max_concurrent_agents c.
Proof. unfold at_capacity. apply Z.leb_gt. Qed.

Lemma create_agent_full t d u c :
  at_capacity c = true → _create_agent t d u c = Some (emit LogLimitReached c, None).
Proof. intros H. unfold _create_agent. by rewrite H. Qed.

Lemma create_agent_routed t ti e u c :
  at_capacity c = false →
  effective_agent_type t ti = Some e →
  ∃ c1,
    _create_agent t ti u c =
      Some (emit (LogAgentCreated (make_agent_id t u) (class_of e))
              (with_agents (<[make_agent_id t u :=
                                new_agent (make_agent_id t u) (class_of e)]> (agents c)) c1),
            Some (new_agent (make_agent_id t u) (class_of e))) ∧
    (c1 = c ∨ c1 = emit (LogDefaultAgent t) c).
Proof.
  intros H He. unfold _create_agent. rewrite H, He.
  destruct (class_of e) eqn:Hcls;
    eexists _; (split; [reflexivity|]); auto.
Qed.

(** On the details of a queued task the routing rules do not raise. *)
Lemma create_agent_room t (d : details_map) u c :
  at_capacity c = false →
  ∃ cls c1,
    _create_agent t (as_task_info d) u c =
      Some (emit (LogAgentCreated (make_agent_id t u) cls)
              (with_agents (<[make_agent_id t u := new_agent (make_agent_id t u) cls]> (agents c)) c1),
            Some (new_agent (make_agent_id t u) cls)) ∧
    (c1 = c ∨ c1 = emit (LogDefaultAgent t) c).
Proof.
  intros H. destruct (effective_agent_type_text t d) as [e He].
  destruct (create_agent_routed t _ e u c H He) as (c1 & Hc & Hc1).
  by exists (class_of e), c1.
Qed.

Lemma create_agent_bound t d u c c' r :
  Z.of_nat (size (agents c)) ≤ max_concurrent_agents c →
  _create_agent t d u c = Some (c', r) →
  Z.of_nat (size (agents c')) ≤ max_concurrent_agents c.
Proof.
  intros Hc. destruct (at_capacity c) eqn:Hcap.
  - rewrite create_agent_full by done. by intros [= <- <-].
  - unfold _create_agent. rewrite Hcap.
    destruct (effective_agent_type t d) as [e|] eqn:He; [|done].
    intros [= <- <-]. apply at_capacity_false in Hcap. simpl.
    pose proof (size_insert_le (agents c) (make_agent_id t u)
                  (new_agent (make_agent_id t u) (class_of e))).
    destruct (class_of e); simpl; lia.
Qed.

Lemma step_agents_bound ev c :
  Z.of_nat (size (agents c)) ≤ max_concurrent_agents c →
  Z.of_nat (size (agents (step ev c))) ≤ max_concurrent_agents (step ev c).
Proof.
  intros Hc. rewrite (proj1 (step_limits ev c)).
  destruct ev as [d r u|u|aid|aid po|aid u| |]; simpl.
  - by rewrite (proj1 (assign_task_frame d r u c)).
  - destruct (loop_alive c && launch_guard c); [|done].
    unfold launch_one. destruct (task_queue c) as [|t q]; [done|].
    pose proof (create_agent_bound (hint_of (details t))
                  (as_task_info (details t)) u (with_task_queue q c)) as Hb.
    destruct (_create_agent _ _ u (with_task_queue q c)) as [[c1 [a|]]|]; simpl in *.
    + by eapply Hb.
    + rewrite (proj1 (assign_task_frame _ _ _ _)). simpl. by eapply Hb.
    + done.
  - unfold unit_start, run_agent_task_begin.
    repeat case_match; simpl; try done.
    by erewrite size_insert_present.
  - unfold unit_end, run_agent_task_resume, receive_agent_update, receive_task_resume.
    repeat (case_match; simpl in *; simplify_eq); try done;
      repeat (erewrite size_insert_present;
              [|first [eassumption | apply lookup_insert_eq]]); done.
  - unfold callback, _handle_task_completion, retry_decision, assign_task.
    repeat (case_match; simpl in *; simplify_eq); try done;
      repeat (erewrite size_insert_present; [|eassumption]); done.
  - done.
  - rewrite map_size_empty. lia.
Qed.

(** C1.  The registry never holds more than [max_concurrent_agents] agents.
    [_create_agent] returns [None] and registers nothing when
    [len(agents) >= max_concurrent_agents]; every event of the controller
    keeps [len(agents) <= max_concurrent_agents]; hence the bound holds in
    every state reached from the initial one, whatever tasks arrive and
    complete (for a limit that is not negative). *)
Theorem agents_never_exceed_limit :
  (∀ t d u c,
     max_concurrent_agents c ≤ Z.of_nat (size (agents c)) →
     ∃ c', _create_agent t d u c = Some (c', None) ∧ agents c' = agents c) ∧
  (∀ ev c,
     Z.of_nat (size (agents c)) ≤ max_concurrent_agents c →
     Z.of_nat (size (agents (step ev c))) ≤ max_concurrent_agents (step ev c)) ∧
  (∀ M R evs,
     0 ≤ M →
     Z.of_nat (size (agents (run_events evs (init M R)))) ≤ M).
Proof.
  split; [|split].
  - intros t d u c Hfull. apply at_capacity_true in Hfull.
    rewrite create_agent_full by done. by eexists.
  - apply step_agents_bound.
  - intros M R evs HM.
    assert (Hgen : ∀ c, Z.of_nat (size (agents c)) ≤ max_concurrent_agents c →
                        Z.of_nat (size (agents (run_events evs c))) ≤
                        max_concurrent_agents (run_events evs c)).
    { induction evs as [|ev evs IH]; intros c Hc; [done|].
      rewrite run_events_cons. apply IH. by apply step_agents_bound. }
    specialize (Hgen (init M R)).
    rewrite (proj1 (run_events_limits evs (init M R))) in Hgen.
    apply Hgen. simpl. rewrite map_size_empty. lia.
Qed.

Lemma agents_never_exceed_limit_witness :
  Z.of_nat (size (agents (run_events (n_tasks_events 3 ++ [EvAssign ∅ 0 (uuid_of 9); EvLaunch (uuid_of 11)])
                            (init 3 1)))) ≤ 3.
Proof.
  destruct agents_never_exceed_limit as (_ & _ & Hrun).
  apply (Hrun 3 1). lia.
Defined.

(** ** The in-flight map *)

Module PyDictFacts.
Section Facts.
Context {V : Type}.
Implicit Types (d : list (string * V)) (k : string) (v : V).

Lemma get_In k v d : PyDict.get k d = Some v → In (k, v) d.
Proof.
  induction d as [|[k' v'] d IH]; simpl; [done|].
  destruct (decide (k' = k)) as [->|Hne].
  - intros [= ->]. by left.
  - intros H. right. by apply IH.
Qed.

Lemma In_set k v d x : In x (PyDict.set k v d) → x = (k, v) ∨ In x d.
Proof.
  induction d as [|[k' v'] d IH]; simpl.
  - intros [<-|[]]. by left.
  - destruct (decide (k' = k)) as [->|Hne]; simpl.
    + intros [<-|H]; auto.
    + intros [<-|H]; auto. destruct (IH H); auto.
Qed.

Lemma In_del k d x : In x (PyDict.del k d) → In x d.
Proof.
  induction d as [|[k' v'] d IH]; simpl; [done|].
  destruct (decide (k' = k)) as [->|Hne]; simpl.
  - intros H. right. by apply IH.
  - intros [<-|H]; auto.
Qed.

Lemma get_set_eq k v d : PyDict.get k (PyDict.set k v d) = Some v.
Proof.
  induction d as [|[k' v'] d IH]; simpl.
  - by rewrite decide_True.
  - destruct (decide (k' = k)) as [->|Hne]; simpl.
    + by rewrite decide_True.
    + by rewrite decide_False.
Qed.


Lemma get_del_eq k d : PyDict.get k (PyDict.del k d) = None.
Proof.
  induction d as [|[k' v'] d IH]; simpl; [done|].
  destruct (decide (k' = k)) as [->|Hne]; simpl; [done|].
  by rewrite decide_False.
Qed.


End Facts.
End PyDictFacts.

Lemma make_agent_id_nonempty t u : make_agent_id t u ≠ "".
Proof. unfold make_agent_id. destruct t; discriminate. Qed.

Lemma units_ok_weaken sp sp' ag ag' d :
  (sp ≤ sp')%nat →
  (∀ k, is_Some (ag !! k) → is_Some (ag' !! k)) →
  units_ok sp ag d → units_ok sp' ag' d.
Proof.
  intros Hsp Hag [H1 H2]. split; [|exact H2].
  intros k t Hin. destruct (H1 k t Hin) as (? & ? & ?).
  repeat split; auto. lia.
Qed.

Lemma units_ok_set_same sp ag d k t v :
  units_ok sp ag d → In (k, t) d → aio_id v = aio_id t →
  units_ok sp ag (PyDict.set k v d).
Proof.
  intros [H1 H2] Hin Hid. split.
  - intros k' t' [[= -> ->]|H]%PyDictFacts.In_set; [|by apply H1].
    rewrite Hid. by apply (H1 k t).
  - intros k1 t1 k2 t2
      [[= -> ->]|Hin1]%PyDictFacts.In_set [[= -> ->]|Hin2]%PyDictFacts.In_set Heq.
    + done.
    + rewrite Hid in Heq. by apply (H2 k t k2 t2).
    + rewrite Hid in Heq. by apply (H2 k1 t1 k t).
    + by apply (H2 k1 t1 k2 t2).
Qed.

Lemma units_ok_set_new sp ag d k v :
  units_ok sp ag d → aio_id v = sp → k ≠ "" → is_Some (ag !! k) →
  units_ok (S sp) ag (PyDict.set k v d).
Proof.
  intros [H1 H2] Hid Hk Hag. split.
  - intros k' t' [[= -> ->]|H]%PyDictFacts.In_set.
    + repeat split; auto. lia.
    + destruct (H1 k' t' H) as (? & ? & ?). repeat split; auto.
  - intros k1 t1 k2 t2
      [[= -> ->]|Hin1]%PyDictFacts.In_set [[= -> ->]|Hin2]%PyDictFacts.In_set Heq.
    + done.
    + destruct (H1 k2 t2 Hin2) as (? & _). lia.
    + destruct (H1 k1 t1 Hin1) as (? & _). lia.
    + by apply (H2 k1 t1 k2 t2).
Qed.

Lemma units_ok_del sp ag d k : units_ok sp ag d → units_ok sp ag (PyDict.del k d).
Proof.
  intros [H1 H2]. split.
  - intros k' t' H%PyDictFacts.In_del. by apply H1.
  - intros k1 t1 k2 t2 Hin1%PyDictFacts.In_del Hin2%PyDictFacts.In_del.
    by apply H2.
Qed.

Lemma is_Some_insert (m : gmap string agent) k a k' :
  is_Some (m !! k') → is_Some (<[k := a]> m !! k').
Proof.
  intros H. destruct (decide (k = k')) as [->|Hne].
  - rewrite lookup_insert_eq. by eexists.
  - by rewrite lookup_insert_ne.
Qed.

(** The callback's scan finds a unit under the key it is stored at. *)
Lemma scan_active_found sp ag d aid t t' :
  units_ok sp ag d → In (aid, t) d → aio_id t' = aio_id t →
  scan_active t' d = Some aid.
Proof.
  intros [_ H2] Hin Hid.
  assert (Hscan : ∀ d0, (∀ x, In x d0 → In x d) → In (aid, t) d0 →
                        scan_active t' d0 = Some aid).
  { induction d0 as [|[k1 t1] d0 IH]; intros Hsub Hin0; [done|]. simpl.
    destruct (decide (aio_id t1 = aio_id t')) as [Heq|Hne].
    - f_equal. apply (H2 k1 t1 aid t); [apply Hsub; by left|done|congruence].
    - destruct Hin0 as [[= -> ->]|Hin0]; [congruence|].
      apply IH; [|done]. intros x Hx. apply Hsub. by right. }
  by apply Hscan.
Qed.

Lemma wf_init M R : wf (init M R).
Proof. split; intros; simpl in *; done. Qed.

Ltac wf_agents :=
  eapply units_ok_weaken;
    [ reflexivity
    | intros ? ?; repeat apply is_Some_insert; eassumption
    | ].

Lemma step_wf ev c : wf c → wf (step ev c).
Proof.
  unfold wf. intros Hwf.
  destruct ev as [d r u|u|aid|aid po|aid u| |]; simpl.
  - destruct (assign_task_frame d r u c) as (-> & -> & _ & _ & _ & _ & ->). done.
  - destruct (loop_alive c && launch_guard c); [|done].
    unfold launch_one. destruct (task_queue c) as [|t q]; [done|].
    destruct (at_capacity (with_task_queue q c)) eqn:Hcap.
    + rewrite create_agent_full by done.
      destruct (assign_task_frame (details t) (retry_count t) u
                  (emit (LogCreateFailed (task_id t)) (emit LogLimitReached (with_task_queue q c))))
        as (-> & -> & _ & _ & _ & _ & ->). done.
    + destruct (create_agent_room (hint_of (details t))
                  (details t) u _ Hcap) as (cls & c1 & -> & [->| ->]); simpl;
        (apply units_ok_set_new;
         [ wf_agents; exact Hwf
         | reflexivity
         | apply make_agent_id_nonempty
         | rewrite lookup_insert_eq; by eexists ]).
  - unfold unit_start, run_agent_task_begin.
    destruct (PyDict.get aid (active_tasks c)) as [t|] eqn:Hget; [|done].
    apply PyDictFacts.get_In in Hget.
    destruct (aio_phase_of t); try done.
    destruct (agents c !! aid); simpl;
      (eapply units_ok_set_same; [|exact Hget|reflexivity]); [wf_agents|]; done.
  - unfold unit_end.
    destruct (PyDict.get aid (active_tasks c)) as [t|] eqn:Hget; [|done].
    apply PyDictFacts.get_In in Hget.
    destruct (aio_phase_of t) eqn:Hph.
    + destruct po; try done. simpl.
      by eapply units_ok_set_same; [|exact Hget|reflexivity].
    + unfold run_agent_task_resume, receive_agent_update, receive_task_resume.
      repeat (case_match; simpl in *; simplify_eq);
        (eapply units_ok_set_same; [|exact Hget|reflexivity]);
        try wf_agents; done.
    + destruct po; done.
  - unfold callback.
    destruct (PyDict.get aid (active_tasks c)) as [t|] eqn:Hget; [|done].
    destruct (aio_phase_of t) eqn:Hph; try done.
    unfold _handle_task_completion, retry_decision, assign_task. rewrite Hph.
    repeat (case_match; simpl in *; simplify_eq);
      try wf_agents; try apply units_ok_del; done.
  - done.
  - split; intros; simpl in *; done.
Qed.

Lemma run_events_wf evs : ∀ c, wf c → wf (run_events evs c).
Proof.
  induction evs as [|ev evs IH]; intros c Hc; [done|].
  rewrite run_events_cons. apply IH. by apply step_wf.
Qed.

(** ** Cancellation *)

Lemma unit_end_cancel c aid t a :
  PyDict.get aid (active_tasks c) = Some t →
  aio_phase_of t = Processing →
  agents c !! aid = Some a →
  let meta' := with_status T_cancelled (aio_meta t) in
  let a' := with_task_meta (Some meta') (with_current_task None (with_state S_cancelled a)) in
  unit_end aid CancelledDuring c =
  with_active_tasks
    (PyDict.set aid (AioTask (aio_id t) meta' (Done (Some CancelledError))) (active_tasks c))
    (with_history
       (deque_append history_maxlen (task_id meta', meta') (completed_tasks_history c))
       (with_agents (<[aid := with_state S_cancelled a']> (<[aid := a']> (agents c)))
          (emit (LogUnitCancelled aid (task_id (aio_meta t))) c))).
Proof.
  intros Hget Hph Ha. unfold unit_end. rewrite Hget, Hph.
  unfold run_agent_task_resume. rewrite Ha. simpl.
  unfold receive_agent_update. simpl. rewrite lookup_insert_eq. reflexivity.
Qed.

(** C4.  In a state reached by the controller, take a unit whose agent is
    processing a task, and cancel it.  [receive_task] sets the agent state
    to ["cancelled"] and raises [CancelledError]; the wrapper
    [_run_agent_task] raises it again, so the asyncio task ends cancelled,
    with task status ["cancelled"]; the agent's state is ["cancelled"], not
    ["error"]; and the completion callback leaves the queue as it is and
    logs no retry, whatever the retry count of the task. *)
Theorem cancellation_propagates (M R : Z) (evs : list event) (aid : string)
    (t : aio_task) :
  let c := run_events evs (init M R) in
  PyDict.get aid (active_tasks c) = Some t →
  aio_phase_of t = Processing →
  ∃ a,
    agents c !! aid = Some a ∧
    snd (receive_task_resume CancelledDuring a) = Raises CancelledError ∧
    state (fst (receive_task_resume CancelledDuring a)) = S_cancelled ∧
    snd (run_agent_task_resume aid (aio_meta t) CancelledDuring c) = Raises CancelledError ∧
    let c1 := step (EvUnitEnd aid CancelledDuring) c in
    state <$> agents c1 !! aid = Some S_cancelled ∧
    (∃ t1, PyDict.get aid (active_tasks c1) = Some t1 ∧
           aio_phase_of t1 = Done (Some CancelledError) ∧
           status (aio_meta t1) = T_cancelled) ∧
    ∀ u, let c2 := step (EvCallback aid u) c1 in
         task_queue c2 = task_queue c1 ∧
         log c2 = log c1 ∧
         state <$> agents c2 !! aid = Some S_cancelled ∧
         PyDict.get aid (active_tasks c2) = None.
Proof.
  intros c Hget Hph.
  assert (Hwf : wf c) by (apply run_events_wf, wf_init).
  pose proof (PyDictFacts.get_In _ _ _ Hget) as Hin.
  destruct (proj1 Hwf aid t Hin) as (_ & Hne & [a Ha]).
  exists a. split; [exact Ha|]. split; [reflexivity|]. split; [reflexivity|].
  split.
  { unfold run_agent_task_resume. rewrite Ha. reflexivity. }
  intros c1.
  assert (Hwf1 : wf c1) by (by apply step_wf).
  assert (Hc1 : c1 = unit_end aid CancelledDuring c) by reflexivity.
  rewrite (unit_end_cancel c aid t a Hget Hph Ha) in Hc1.
  set (meta' := with_status T_cancelled (aio_meta t)) in Hc1.
  set (t1 := AioTask (aio_id t) meta' (Done (Some CancelledError))) in Hc1.
  assert (Hget1 : PyDict.get aid (active_tasks c1) = Some t1).
  { rewrite Hc1. simpl. apply PyDictFacts.get_set_eq. }
  split.
  { rewrite Hc1. simpl. by rewrite lookup_insert_eq. }
  split.
  { exists t1. by repeat split. }
  intros u c2.
  assert (Hscan : scan_active t1 (active_tasks c1) = Some aid).
  { eapply scan_active_found; [exact Hwf1| |reflexivity].
    by apply PyDictFacts.get_In. }
  assert (Hc2 : c2 = callback aid u c1) by reflexivity.
  unfold callback in Hc2. rewrite Hget1 in Hc2. simpl in Hc2.
  unfold _handle_task_completion in Hc2. rewrite Hscan in Hc2.
  rewrite decide_False in Hc2 by exact Hne.
  assert (Hag1 : ∃ a1, agents c1 !! aid = Some a1 ∧ state a1 = S_cancelled).
  { rewrite Hc1. simpl. rewrite lookup_insert_eq. by eexists. }
  destruct Hag1 as (a1 & Ha1 & Hst1).
  simpl in Hc2. rewrite Ha1, Hst1 in Hc2. simpl in Hc2.
  rewrite Hc2. simpl. repeat split.
  - rewrite lookup_insert_eq. simpl. by rewrite Hst1.
  - apply PyDictFacts.get_del_eq.
Qed.

Lemma cancellation_propagates_witness :
  let d : details_map := {[ "url" := "https://example.com" ]} in
  let evs := [EvAssign d 0 (uuid_of 0); EvLaunch (uuid_of 1);
              EvUnitStart (make_agent_id "default" (uuid_of 1))] in
  let aid := make_agent_id "default" (uuid_of 1) in
  let c1 := run_events (evs ++ [EvUnitEnd aid CancelledDuring]) (init 5 1) in
  state <$> agents c1 !! aid = Some S_cancelled ∧
  task_queue (step (EvCallback aid (uuid_of 2)) c1) = [].
Proof.
  intros d evs aid c1.
  destruct (cancellation_propagates 5 1 evs aid
              (AioTask 0 (with_status T_running (new_task (d, 0, uuid_of 0))) Processing))
    as (a & _ & _ & _ & _ & Hst & _ & Hcb).
  - vm_compute. reflexivity.
  - reflexivity.
  - split.
    + unfold c1. rewrite run_events_app. exact Hst.
    + unfold c1. rewrite run_events_app.
      destruct (Hcb (uuid_of 2)) as (Hq & _). simpl in Hq.
      etransitivity; [exact Hq|]. vm_compute. reflexivity.
Defined.

(** ** Agents are never released *)

Lemma count_log_snoc p l r :
  count_log p (l ++ [r]) = (count_log p l + (if p r then 1 else 0))%nat.
Proof.
  unfold count_log. rewrite List.filter_app, length_app. simpl.
  by destruct (p r).
Qed.

Lemma handle_task_completion_agents task u c k :
  let c' := fst (_handle_task_completion task u c) in
  match agents c !! k with
  | Some a => agents c' !! k = Some a ∨ agents c' !! k = Some (with_task_meta None a)
  | None => agents c' !! k = None
  end.
Proof.
  unfold _handle_task_completion, retry_decision, assign_task.
  repeat (case_match; simpl in *; simplify_eq); auto;
    match goal with
    | |- context [<[?k1 := _]> _ !! ?k2] =>
        destruct (decide (k1 = k2)) as [->|];
        [ rewrite lookup_insert_eq | rewrite lookup_insert_ne by done ]
    end; simplify_eq; auto.
Qed.

Lemma handle_task_completion_active task u c :
  active_tasks (fst (_handle_task_completion task u c)) =
  match scan_active task (active_tasks c) with
  | Some aid => if decide (aid = "") then active_tasks c
                else PyDict.del aid (active_tasks c)
  | None => active_tasks c
  end.
Proof.
  unfold _handle_task_completion, retry_decision, assign_task.
  repeat (case_match; simpl in *; simplify_eq); auto.
Qed.

Lemma step_agents_grow ev c k :
  ev ≠ EvShutdownFinish → is_Some (agents c !! k) → is_Some (agents (step ev c) !! k).
Proof.
  intros Hev Hk. destruct ev; try done; simpl.
  - by rewrite (proj1 (assign_task_frame _ _ _ _)).
  - unfold launch_one, _create_agent, assign_task.
    repeat (case_match; simpl in *; simplify_eq); try done;
      by apply is_Some_insert.
  - unfold unit_start, run_agent_task_begin.
    repeat (case_match; simpl in *; simplify_eq); try done;
      by apply is_Some_insert.
  - unfold unit_end, run_agent_task_resume, receive_agent_update, receive_task_resume.
    repeat (case_match; simpl in *; simplify_eq); try done;
      by repeat apply is_Some_insert.
  - unfold callback. repeat case_match; try done.
    pose proof (handle_task_completion_agents a u c k) as H'.
    simpl in H'. destruct Hk as [x Hx]. rewrite Hx in H'.
    destruct H' as [-> | ->]; by eexists.
Qed.

Lemma step_creations ev c :
  ev ≠ EvShutdownFinish → launch_fresh ev c →
  (size (agents (step ev c)) + count_log is_creation (log c) =
   size (agents c) + count_log is_creation (log (step ev c)))%nat.
Proof.
  intros Hev Hfresh. destruct ev; try done; simpl.
  - unfold assign_task. case_match; simpl; rewrite count_log_snoc; simpl; lia.
  - unfold launch_fresh in Hfresh.
    destruct (loop_alive c && launch_guard c) eqn:Hgo; [|done].
    unfold launch_one. destruct (task_queue c) as [|t q] eqn:Hq; [done|].
    destruct (at_capacity c) eqn:Hcap.
    + rewrite create_agent_full by done. unfold assign_task.
      case_match; simpl; rewrite !count_log_snoc; simpl; lia.
    + specialize (Hfresh eq_refl eq_refl).
      destruct (create_agent_room (hint_of (details t)) (details t) u
                  (with_task_queue q c) Hcap) as (cls & c1 & -> & [->| ->]);
        simpl; rewrite !count_log_snoc; simpl;
        rewrite map_size_insert_None by done; lia.
  - unfold unit_start, run_agent_task_begin.
    repeat (case_match; simpl in *; simplify_eq); try done.
    by erewrite size_insert_present.
  - unfold unit_end, run_agent_task_resume, receive_agent_update, receive_task_resume.
    repeat (case_match; simpl in *; simplify_eq); try done;
      rewrite ?count_log_snoc; simpl;
      repeat (erewrite size_insert_present;
              [|first [eassumption | apply lookup_insert_eq]]); lia.
  - unfold callback, _handle_task_completion, retry_decision, assign_task.
    repeat (case_match; simpl in *; simplify_eq); try done;
      rewrite ?count_log_snoc; simpl;
      repeat (erewrite size_insert_present; [|eassumption]); lia.
  - unfold shutdown_begin. simpl. rewrite count_log_snoc. simpl. lia.
Qed.

Lemma run_creations evs : ∀ c,
  no_shutdown evs → fresh_ids evs c →
  (size (agents (run_events evs c)) + count_log is_creation (log c) =
   size (agents c) + count_log is_creation (log (run_events evs c)))%nat.
Proof.
  induction evs as [|ev evs IH]; intros c Hno Hfresh; [done|].
  rewrite run_events_cons. inversion Hno as [|? ? Hev Hno']; subst.
  destruct Hfresh as [Hf Hfresh].
  specialize (IH (step ev c) Hno' Hfresh).
  pose proof (step_creations ev c Hev Hf). lia.
Qed.

(** C10.  Completing a unit never takes its agent out of the registry: the
    completion callback keeps every registered agent (at most dropping its
    temporary task-meta attribute) and removes only the unit's entry of the
    in-flight map; no event but the end of [shutdown] removes a key of the
    registry.  So in a run without shutdown, with agent ids that do not
    repeat, the registry holds one agent per successful creation, and once
    [max_concurrent_agents] creations have succeeded every call of
    [_create_agent] returns [None], however many units have finished. *)
Theorem agents_never_released :
  (∀ task u c k,
     let c' := fst (_handle_task_completion task u c) in
     (is_Some (agents c' !! k) ↔ is_Some (agents c !! k)) ∧
     (∀ a, agents c !! k = Some a →
           agents c' !! k = Some a ∨ agents c' !! k = Some (with_task_meta None a)) ∧
     active_tasks c' =
       match scan_active task (active_tasks c) with
       | Some aid => if decide (aid = "") then active_tasks c
                     else PyDict.del aid (active_tasks c)
       | None => active_tasks c
       end) ∧
  (∀ ev c k,
     ev ≠ EvShutdownFinish →
     is_Some (agents c !! k) → is_Some (agents (step ev c) !! k)) ∧
  (∀ M R evs,
     no_shutdown evs → fresh_ids evs (init M R) →
     let c := run_events evs (init M R) in
     size (agents c) = count_log is_creation (log c) ∧
     (M ≤ Z.of_nat (count_log is_creation (log c)) →
      ∀ t d u, ∃ c', _create_agent t d u c = Some (c', None) ∧
                     agents c' = agents c)).
Proof.
  split; [|split].
  - intros task u c k c'.
    pose proof (handle_task_completion_agents task u c k) as H. simpl in H.
    fold c' in H. split; [|split].
    + destruct (agents c !! k) as [a|] eqn:Hk.
      * split; [by eexists|]. intros _. destruct H as [-> | ->]; by eexists.
      * rewrite H. done.
    + intros a Ha. by rewrite Ha in H.
    + apply handle_task_completion_active.
  - apply step_agents_grow.
  - intros M R evs Hno Hfresh c.
    pose proof (run_creations evs (init M R) Hno Hfresh) as Hcount.
    fold c in Hcount. simpl in Hcount. rewrite map_size_empty in Hcount.
    change (count_log is_creation []) with 0%nat in Hcount.
    split; [lia|].
    intros HM t d u.
    assert (Hcap : at_capacity c = true).
    { apply at_capacity_true. unfold c at 1.
      rewrite (proj1 (run_events_limits evs (init M R))). simpl. fold c. lia. }
    rewrite create_agent_full by done. by eexists.
Qed.

Lemma agents_never_released_witness :
  let evs := n_tasks_events 2 ++ [EvAssign ∅ 0 (uuid_of 9)] in
  let c := run_events evs (init 2 1) in
  active_tasks c = [] ∧
  ∃ c', _create_agent "default" ∅ (uuid_of 11) c = Some (c', None).
Proof.
  intros evs c. split; [vm_compute; reflexivity|].
  destruct agents_never_released as (_ & _ & Hrun).
  destruct (Hrun 2 1 evs) as (_ & Hfull).
  - unfold no_shutdown. repeat constructor; discriminate.
  - vm_compute. repeat split.
  - destruct (Hfull ltac:(vm_compute; discriminate) "default" ∅ (uuid_of 11))
      as (c' & Hc' & _).
    by exists c'.
Defined.

(** ** Retries *)

Local Arguments Z.ltb : simpl never.
Local Arguments Z.leb : simpl never.
Local Arguments Z.of_nat : simpl never.
Local Arguments Z.add : simpl never.
Local Arguments effective_agent_type : simpl never.

Lemma deque_append_last {A} (n : nat) (x : A) (q : list A) :
  (0 < n)%nat → last (deque_append n x q) = Some x.
Proof.
  intros Hn. unfold deque_append.
  destruct (n <? length (q ++ [x]))%nat eqn:Hfull.
  - destruct q as [|y q]; simpl.
    + apply Nat.ltb_lt in Hfull. simpl in Hfull. lia.
    + apply last_snoc.
  - apply last_snoc.
Qed.

(** What the callback decides for a failed task, in any state. *)
Lemma retry_decision_spec aid meta u c :
  let c' := retry_decision aid meta u c in
  agents c' = agents c ∧ active_tasks c' = active_tasks c ∧
  completed_tasks_history c' = completed_tasks_history c ∧
  max_concurrent_agents c' = max_concurrent_agents c ∧
  max_task_retries c' = max_task_retries c ∧
  running c' = running c ∧ spawned c' = spawned c ∧
  (retry_count meta < max_task_retries c → 0 ≤ retry_count meta →
   task_queue c' = new_task (details meta, retry_count meta + 1, u) :: task_queue c ∧
   log c' = log c ++ [LogRetrying (task_id meta) aid (retry_count meta + 1);
                      LogRequeued u (retry_count meta + 1)]) ∧
  (max_task_retries c ≤ retry_count meta →
   task_queue c' = task_queue c ∧
   log c' = log c ++ [LogGivingUp (task_id meta) aid]).
Proof.
  unfold retry_decision, assign_task.
  destruct (retry_count meta <? max_task_retries c) eqn:Hlt.
  - apply Z.ltb_lt in Hlt.
    destruct (0 <? retry_count meta + 1) eqn:Hpos; simpl;
      repeat split; try done; intros;
      try (apply Z.ltb_ge in Hpos); try lia; by rewrite <- app_assoc.
  - apply Z.ltb_ge in Hlt. simpl. repeat split; try done; intros; lia.
Qed.

(** The callback on a unit whose agent ended in state ["error"]. *)
Lemma handle_completion_on_error task u c aid a m :
  scan_active task (active_tasks c) = Some aid →
  aid ≠ "" →
  agents c !! aid = Some a →
  state a = S_error →
  _task_meta_for_callback a = Some m →
  let c' := fst (_handle_task_completion task u c) in
  (0 ≤ retry_count m → retry_count m < max_task_retries c →
   task_queue c' = new_task (details m, retry_count m + 1, u) :: task_queue c ∧
   count_log is_enqueue (log c') = S (count_log is_enqueue (log c))) ∧
  (max_task_retries c ≤ retry_count m →
   task_queue c' = task_queue c ∧
   In (LogGivingUp (task_id m) aid) (log c') ∧
   count_log is_enqueue (log c') = count_log is_enqueue (log c)).
Proof.
  intros Hscan Hne Ha Hst Hm c'.
  set (c1 := with_active_tasks (PyDict.del aid (active_tasks c)) c).
  destruct (retry_decision_spec aid m u c1) as (_ & _ & _ & _ & _ & _ & _ & Hretry & Hgive).
  assert (Hq : task_queue c' = task_queue (retry_decision aid m u c1)).
  { unfold c', _handle_task_completion. rewrite Hscan, decide_False by done.
    simpl. rewrite Ha, Hst, Hm. by destruct (aio_phase_of task) as [| |[[]|]]; simpl. }
  assert (Hlog : ∃ tl, log c' = log (retry_decision aid m u c1) ++ tl ∧
                       count_log is_enqueue tl = 0%nat).
  { unfold c', _handle_task_completion. rewrite Hscan, decide_False by done.
    simpl. rewrite Ha, Hst, Hm.
    destruct (aio_phase_of task) as [| |[[]|]]; simpl;
      first [ by exists []; rewrite app_nil_r | by eexists [_]; split ]. }
  destruct Hlog as (tl & Hlog & Htl).
  assert (Hcount : count_log is_enqueue (log c') =
                   count_log is_enqueue (log (retry_decision aid m u c1))).
  { rewrite Hlog. unfold count_log in *. rewrite List.filter_app, length_app. lia. }
  split.
  - intros H0 Hlt. destruct (Hretry Hlt H0) as [Hq1 Hl1].
    split; [rewrite Hq, Hq1; reflexivity|].
    rewrite Hcount, Hl1.
    change (log c1 ++ [?x; ?y]) with (log c ++ [x] ++ [y]).
    rewrite app_assoc, !count_log_snoc. simpl. lia.
  - intros Hge. destruct (Hgive Hge) as [Hq1 Hl1].
    split; [rewrite Hq, Hq1; reflexivity|]. split.
    + rewrite Hlog, Hl1. apply in_or_app. left. apply in_or_app. right. by left.
    + rewrite Hcount, Hl1, count_log_snoc. simpl.
      change (log c1) with (log c). lia.
Qed.

Lemma failing_attempt_spec (c : controller) (t : task) (q : list task)
    (msg : string) (uu : string * string) :
  task_queue c = t :: q →
  active_tasks c = [] →
  running c = true →
  at_capacity c = false →
  ∃ c0 a,
    run_events (failing_attempt (details t) msg uu) c =
      with_agents (<[make_agent_id (hint_of (details t)) uu.1 := a]> (agents c0))
        (retry_decision (make_agent_id (hint_of (details t)) uu.1)
           (with_status T_completed t) uu.2 c0) ∧
    task_queue c0 = q ∧ active_tasks c0 = [] ∧ running c0 = true ∧
    max_concurrent_agents c0 = max_concurrent_agents c ∧
    max_task_retries c0 = max_task_retries c ∧
    (size (agents c0) ≤ S (size (agents c)))%nat ∧
    is_Some (agents c0 !! make_agent_id (hint_of (details t)) uu.1) ∧
    completed_tasks_history c0 =
      deque_append history_maxlen (task_id t, with_status T_completed t)
        (completed_tasks_history c) ∧
    (∀ p, (∀ r, p r = true → is_retrying r || is_giving_up r || is_enqueue r = true) →
          count_log p (log c0) = count_log p (log c)).
Proof.
  intros Hq Hact Hrun Hcap.
  remember (run_events (failing_attempt (details t) msg uu) c) as c' eqn:Hc'.
  destruct c as [q0 ag act h M R run sp lg]. simpl in *. subst q0 act run.
  pose proof Hcap as Hlt. apply at_capacity_false in Hlt. simpl in Hlt.
  unfold failing_attempt in Hc'. 
  pose proof (make_agent_id_nonempty (hint_of (details t)) uu.1) as Hne.
  unfold run_events in Hc'. simpl in Hc'.
  unfold launch_guard in Hc'. simpl in Hc'.
  assert (Hg : (Z.of_nat 0 <? M) = true) by (apply Z.ltb_lt; lia).
  rewrite Hg in Hc'. simpl in Hc'.
  unfold launch_one, _create_agent in Hc'. simpl in Hc'.
  unfold at_capacity in Hcap, Hc'. simpl in Hcap, Hc'. rewrite Hcap in Hc'.
  fold (hint_of (details t)) in Hc'.
  set (aid := make_agent_id (hint_of (details t)) uu.1) in *.
  clearbody aid.
  destruct (effective_agent_type_text (hint_of (details t)) (details t)) as [e He].
  rewrite He in Hc'.
  set (cls := class_of e) in *.
  clearbody cls.
  destruct cls; simpl in Hc';
  unfold unit_start in Hc'; simpl in Hc'; rewrite decide_True in Hc' by done;
  simpl in Hc'; unfold run_agent_task_begin in Hc'; simpl in Hc';
  rewrite lookup_insert_eq in Hc'; simpl in Hc'; rewrite decide_True in Hc' by done;
  unfold unit_end in Hc'; simpl in Hc'; rewrite decide_True in Hc' by done;
  simpl in Hc'; unfold run_agent_task_resume in Hc'; simpl in Hc';
  rewrite lookup_insert_eq in Hc'; simpl in Hc';
  unfold receive_agent_update in Hc'; simpl in Hc';
  rewrite lookup_insert_eq in Hc'; simpl in Hc'; rewrite decide_True in Hc' by done;
  unfold callback in Hc'; simpl in Hc'; rewrite decide_True in Hc' by done;
  simpl in Hc'; unfold _handle_task_completion in Hc'; simpl in Hc';
  rewrite decide_True in Hc' by done; rewrite decide_False in Hc' by done;
  simpl in Hc'; rewrite decide_True in Hc' by done;
  rewrite lookup_insert_eq in Hc'; simpl in Hc';
  (eexists _, _; split;
   [ rewrite Hc';
     rewrite (proj1 (retry_decision_spec _ _ _ _)); reflexivity
   | simpl; repeat split; try done;
     [ rewrite !insert_insert_eq; apply size_insert_le
     | rewrite lookup_insert_eq; by eexists
     | intros p Hp; rewrite !count_log_snoc;
       repeat match goal with
              | |- context [p ?r] =>
                  let E := fresh in
                  destruct (p r) eqn:E; [apply Hp in E; discriminate E|]
              end; simpl; lia ] ]).
Qed.

Lemma failing_attempt_fields (c : controller) (t : task) (q : list task)
    (msg : string) (uu : string * string) :
  task_queue c = t :: q →
  active_tasks c = [] →
  running c = true →
  at_capacity c = false →
  0 ≤ retry_count t →
  let c' := run_events (failing_attempt (details t) msg uu) c in
  active_tasks c' = [] ∧ running c' = true ∧
  max_concurrent_agents c' = max_concurrent_agents c ∧
  max_task_retries c' = max_task_retries c ∧
  (size (agents c') ≤ S (size (agents c)))%nat ∧
  last (completed_tasks_history c') = Some (task_id t, with_status T_completed t) ∧
  (retry_count t < max_task_retries c →
   task_queue c' = new_task (details t, retry_count t + 1, uu.2) :: q ∧
   count_log is_retrying (log c') = S (count_log is_retrying (log c)) ∧
   count_log is_giving_up (log c') = count_log is_giving_up (log c) ∧
   count_log is_enqueue (log c') = S (count_log is_enqueue (log c))) ∧
  (max_task_retries c ≤ retry_count t →
   task_queue c' = q ∧
   count_log is_retrying (log c') = count_log is_retrying (log c) ∧
   count_log is_giving_up (log c') = S (count_log is_giving_up (log c)) ∧
   count_log is_enqueue (log c') = count_log is_enqueue (log c) ∧
   last (log c') =
     Some (LogGivingUp (task_id t) (make_agent_id (hint_of (details t)) uu.1))).
Proof.
  intros Hq Hact Hrun Hcap Hrc c'.
  destruct (failing_attempt_spec c t q msg uu Hq Hact Hrun Hcap)
    as (c0 & a & Hc' & Hq0 & Hact0 & Hrun0 & HM0 & HR0 & Hsz0 & Hreg0 & Hh0 & Hlog0).
  fold c' in Hc'.
  destruct (retry_decision_spec (make_agent_id (hint_of (details t)) uu.1)
              (with_status T_completed t) uu.2 c0)
    as (Hag & Hact1 & Hh1 & HM1 & HR1 & Hrun1 & _ & Hretry & Hgive).
  simpl in Hretry, Hgive.
  assert (Hr1 : count_log is_retrying (log c0) = count_log is_retrying (log c)).
  { apply Hlog0. intros r ->. reflexivity. }
  assert (Hr2 : count_log is_giving_up (log c0) = count_log is_giving_up (log c)).
  { apply Hlog0. intros r ->. by rewrite orb_true_r. }
  assert (Hr3 : count_log is_enqueue (log c0) = count_log is_enqueue (log c)).
  { apply Hlog0. intros r ->. by rewrite !orb_true_r. }
  rewrite Hc'. simpl.
  split; [congruence|]. split; [congruence|]. split; [congruence|].
  split; [congruence|]. split.
  { destruct Hreg0 as [a0 Ha0]. by erewrite size_insert_present. }
  split.
  { rewrite Hh1, Hh0. apply deque_append_last. unfold history_maxlen. lia. }
  split.
  - intros Hlt. rewrite HR0 in Hretry.
    destruct (Hretry Hlt Hrc) as [-> ->].
    rewrite Hq0.
    change (log c0 ++ [?x; ?y]) with (log c0 ++ [x] ++ [y]).
    rewrite app_assoc, !count_log_snoc. simpl.
    rewrite Hr1, Hr2, Hr3. repeat split; lia.
  - intros Hge. rewrite HR0 in Hgive.
    destruct (Hgive Hge) as [-> ->].
    rewrite Hq0, !count_log_snoc, last_snoc. simpl.
    rewrite Hr1, Hr2, Hr3. repeat split; lia.
Qed.

Lemma retries_chain (d : details_map) (msg : string) (us : list (string * string)) :
  ∀ (c : controller) (k : Z) (id : string),
  task_queue c = [new_task (d, k, id)] →
  active_tasks c = [] →
  running c = true →
  0 ≤ k →
  k + Z.of_nat (length us) ≤ max_task_retries c →
  Z.of_nat (size (agents c) + length us) ≤ max_concurrent_agents c →
  let c' := run_events (flat_map (failing_attempt d msg) us) c in
  task_queue c' = [new_task (d, k + Z.of_nat (length us), default id (last us.*2))] ∧
  active_tasks c' = [] ∧ running c' = true ∧
  max_concurrent_agents c' = max_concurrent_agents c ∧
  max_task_retries c' = max_task_retries c ∧
  (size (agents c') ≤ size (agents c) + length us)%nat ∧
  count_log is_retrying (log c') = (count_log is_retrying (log c) + length us)%nat ∧
  count_log is_giving_up (log c') = count_log is_giving_up (log c) ∧
  count_log is_enqueue (log c') = (count_log is_enqueue (log c) + length us)%nat.
Proof.
  induction us as [|uu us IH]; intros c k id Hq Hact Hrun Hk HR HM c'.
  - unfold c'. simpl. rewrite Hq, Z.add_0_r, !Nat.add_0_r. done.
  - unfold c'.
    change (flat_map (failing_attempt d msg) (uu :: us))
      with (failing_attempt d msg uu ++ flat_map (failing_attempt d msg) us).
    rewrite run_events_app.
    simpl length in *.
    assert (Hcap : at_capacity c = false) by (apply at_capacity_false; lia).
    pose proof (failing_attempt_fields c (new_task (d, k, id)) [] msg uu
                  Hq Hact Hrun Hcap Hk) as Hf.
    change (details (new_task (d, k, id))) with d in Hf.
    change (retry_count (new_task (d, k, id))) with k in Hf.
    cbv zeta in Hf.
    set (c1 := run_events (failing_attempt d msg uu) c) in *.
    destruct Hf as (Hact1 & Hrun1 & HM1 & HR1 & Hsz1 & _ & Hretry & _).
    destruct Hretry as (Hq1 & Hc1 & Hc2 & Hc3); [lia|].
    destruct (IH c1 (k + 1) uu.2 Hq1 Hact1 Hrun1) as
      (Hq2 & Hact2 & Hrun2 & HM2 & HR2 & Hsz2 & Hd1 & Hd2 & Hd3); [lia|lia|lia|].
    rewrite Hq2, Hact2, Hrun2, HM2, HR2, Hd1, Hd2, Hd3, HM1, HR1, Hc1, Hc2, Hc3.
    split; [|repeat split; lia].
    replace (k + 1 + Z.of_nat (length us)) with (k + Z.of_nat (S (length us))) by lia.
    do 3 f_equal.
    rewrite fmap_cons. destruct us as [|uu' us']; [done|].
    rewrite fmap_cons, last_cons_cons.
    destruct (last (uu'.2 :: us'.*2)) eqn:E; [done|].
    apply last_None in E. discriminate E.
Qed.

Lemma failing_run_prefix (M R : Z) (d : details_map) (msg u0 : string)
    (us : list (string * string)) :
  Z.of_nat (length us) ≤ R →
  Z.of_nat (length us) ≤ M →
  let c := run_events (failing_run d msg u0 us) (init M R) in
  task_queue c = [new_task (d, Z.of_nat (length us), default u0 (last us.*2))] ∧
  active_tasks c = [] ∧ running c = true ∧
  max_concurrent_agents c = M ∧ max_task_retries c = R ∧
  (size (agents c) ≤ length us)%nat ∧
  count_log is_retrying (log c) = length us ∧
  count_log is_giving_up (log c) = 0%nat ∧
  count_log is_enqueue (log c) = S (length us).
Proof.
  intros HR HM c. unfold c, failing_run. rewrite run_events_cons.
  set (c0 := step (EvAssign d 0 u0) (init M R)).
  assert (Hsz0 : size (agents c0) = 0%nat) by (simpl; apply map_size_empty).
  destruct (retries_chain d msg us c0 0 u0) as
    (Hq & Hact & Hrun & HM' & HR' & Hsz & H1 & H2 & H3);
    [reflexivity | reflexivity | reflexivity | lia | simpl; lia
    | rewrite Hsz0; simpl; lia | ].
  rewrite Hq, Hact, Hrun, HM', HR', H1, H2, H3.
  rewrite Hsz0 in Hsz. repeat split; try done.
Qed.

(** The retries of a task when the registry has room.  A task is assigned
    once and each of its attempts fails (the agent ends in state
    ["error"]), with room in the registry for every attempt.
    With [max_task_retries = R >= 0], after [R + 1] attempts the callback
    has re-enqueued the task exactly [R] times and then given it up: the
    log holds [R] retry lines, one give-up line (the last line), and
    [R + 1] enqueue lines in all; the queue and the in-flight map are
    empty, and no further launch, unit step or callback changes the
    controller.  In any state, the callback of a unit whose agent ended in
    state ["error"] re-enqueues the task with its count raised by one
    while the count is below [max_task_retries], and otherwise logs the
    give-up and enqueues nothing. *)
Lemma always_failing_task_retries (M R : Z) (d : details_map) (msg u0 : string)
    (us : list (string * string)) (uu : string * string) :
  0 ≤ R →
  Z.of_nat (length us) = R →
  R + 1 ≤ M →
  let c := run_events (failing_run d msg u0 (us ++ [uu])) (init M R) in
  task_queue c = [] ∧ active_tasks c = [] ∧
  Z.of_nat (count_log is_retrying (log c)) = R ∧
  count_log is_giving_up (log c) = 1%nat ∧
  Z.of_nat (count_log is_enqueue (log c)) = R + 1 ∧
  last (log c) =
    Some (LogGivingUp (default u0 (last us.*2)) (make_agent_id (hint_of d) uu.1)) ∧
  (∀ u aid po,
     step (EvLaunch u) c = c ∧ step (EvUnitStart aid) c = c ∧
     step (EvUnitEnd aid po) c = c ∧ step (EvCallback aid u) c = c) ∧
  (∀ task u c1 aid a m,
     scan_active task (active_tasks c1) = Some aid → aid ≠ "" →
     agents c1 !! aid = Some a → state a = S_error →
     _task_meta_for_callback a = Some m →
     let c2 := fst (_handle_task_completion task u c1) in
     (0 ≤ retry_count m → retry_count m < max_task_retries c1 →
      task_queue c2 = new_task (details m, retry_count m + 1, u) :: task_queue c1 ∧
      count_log is_enqueue (log c2) = S (count_log is_enqueue (log c1))) ∧
     (max_task_retries c1 ≤ retry_count m →
      task_queue c2 = task_queue c1 ∧
      In (LogGivingUp (task_id m) aid) (log c2) ∧
      count_log is_enqueue (log c2) = count_log is_enqueue (log c1))).
Proof.
  intros HR Hlen HM c.
  assert (Hc : c = run_events (failing_attempt d msg uu)
                     (run_events (failing_run d msg u0 us) (init M R))).
  { unfold c, failing_run. rewrite !run_events_cons, flat_map_app, run_events_app.
    change (flat_map (failing_attempt d msg) [uu])
      with (failing_attempt d msg uu ++ []).
    by rewrite app_nil_r. }
  destruct (failing_run_prefix M R d msg u0 us) as
    (Hq & Hact & Hrun & HM' & HR' & Hsz & H1 & H2 & H3); [lia|lia|].
  set (c0 := run_events (failing_run d msg u0 us) (init M R)) in *.
  assert (Hcap : at_capacity c0 = false) by (apply at_capacity_false; lia).
  pose proof (failing_attempt_fields c0 _ [] msg uu Hq Hact Hrun Hcap) as Hf.
  change (details (new_task (d, Z.of_nat (length us), default u0 (last us.*2))))
    with d in Hf.
  change (retry_count (new_task (d, Z.of_nat (length us), default u0 (last us.*2))))
    with (Z.of_nat (length us)) in Hf.
  change (task_id (new_task (d, Z.of_nat (length us), default u0 (last us.*2))))
    with (default u0 (last us.*2)) in Hf.
  cbv zeta in Hf. rewrite <- Hc in Hf.
  destruct Hf as (Hact1 & Hrun1 & _ & _ & _ & _ & _ & Hgive); [lia|].
  destruct Hgive as (Hq1 & G1 & G2 & G3 & Hlast); [lia|].
  rewrite Hq1, Hact1, G1, G2, G3, H1, H2, H3, Hlast.
  split; [done|]. split; [done|]. split; [lia|]. split; [lia|].
  split; [lia|]. split; [done|]. split.
  - intros u aid po. repeat split.
    + simpl. unfold launch_guard. rewrite Hq1. simpl. by rewrite andb_false_r.
    + simpl. unfold unit_start. by rewrite Hact1.
    + simpl. unfold unit_end. by rewrite Hact1.
    + simpl. unfold callback. by rewrite Hact1.
  - apply handle_completion_on_error.
Qed.

Lemma always_failing_task_retries_example :
  let d : details_map := {[ "description" := "find papers on X" ]} in
  let c := run_events
             (failing_run d "boom" (uuid_of 0)
                ([(uuid_of 1, uuid_of 2); (uuid_of 3, uuid_of 4)] ++ [(uuid_of 5, uuid_of 6)]))
             (init 5 2) in
  task_queue c = [] ∧ count_log is_enqueue (log c) = 3%nat ∧
  count_log is_retrying (log c) = 2%nat.
Proof.
  intros d c.
  assert (H0 : 0 ≤ 2) by lia.
  assert (H1 : 2 + 1 ≤ 5) by lia.
  destruct (always_failing_task_retries 5 2 d "boom" (uuid_of 0)
              [(uuid_of 1, uuid_of 2); (uuid_of 3, uuid_of 4)] (uuid_of 5, uuid_of 6)
              H0 eq_refl H1)
    as (Hq & _ & Hr & _ & He & _).
  fold c in Hq, Hr, He. split; [exact Hq|]. split; lia.
Defined.


(** C3.  After [N - 1] failed attempts of a task the queue holds its
    record with retry count [N - 1] under the id [prev].  When the attempt
    on that record fails, the callback's [assign_task] puts a new pending
    record in the queue whose [retry_count] is [N] and whose id is the
    uuid drawn for it; the failed attempt keeps its id [prev] in the
    history, and as long as uuids do not repeat no queued record carries
    [prev].  In any state, the callback's retry of a failed task is the
    record [new_task (details, retry_count + 1, uuid)] at the head of the
    queue. *)
Theorem retry_is_fresh_record (M R : Z) (d : details_map) (msg u0 : string)
    (us : list (string * string)) (uu : string * string) :
  let N := Z.of_nat (S (length us)) in
  N ≤ R →
  N ≤ M →
  let c0 := run_events (failing_run d msg u0 us) (init M R) in
  let prev := default u0 (last us.*2) in
  let c := run_events (failing_attempt d msg uu) c0 in
  task_queue c0 = [new_task (d, N - 1, prev)] ∧
  task_queue c = [new_task (d, N, uu.2)] ∧
  last (completed_tasks_history c) =
    Some (prev, with_status T_completed (new_task (d, N - 1, prev))) ∧
  (uu.2 ≠ prev → ∀ t, In t (task_queue c) → task_id t ≠ prev) ∧
  (∀ task u c1 aid a m,
     scan_active task (active_tasks c1) = Some aid → aid ≠ "" →
     agents c1 !! aid = Some a → state a = S_error →
     _task_meta_for_callback a = Some m →
     0 ≤ retry_count m → retry_count m < max_task_retries c1 →
     task_queue (fst (_handle_task_completion task u c1)) =
       new_task (details m, retry_count m + 1, u) :: task_queue c1).
Proof.
  intros N HR HM c0 prev c.
  destruct (failing_run_prefix M R d msg u0 us) as
    (Hq & Hact & Hrun & HM' & HR' & Hsz & _); [lia|lia|].
  fold c0 prev in Hq, Hact, Hrun, HM', HR', Hsz.
  assert (Hcap : at_capacity c0 = false) by (apply at_capacity_false; lia).
  pose proof (failing_attempt_fields c0 _ [] msg uu Hq Hact Hrun Hcap) as Hf.
  change (details (new_task (d, Z.of_nat (length us), prev))) with d in Hf.
  change (retry_count (new_task (d, Z.of_nat (length us), prev)))
    with (Z.of_nat (length us)) in Hf.
  change (task_id (new_task (d, Z.of_nat (length us), prev))) with prev in Hf.
  cbv zeta in Hf. fold c in Hf.
  destruct Hf as (_ & _ & _ & _ & _ & Hh & Hretry & _); [lia|].
  destruct Hretry as (Hq1 & _); [lia|].
  replace (N - 1) with (Z.of_nat (length us)) by lia.
  replace N with (Z.of_nat (length us) + 1) by lia.
  split; [exact Hq|]. split; [exact Hq1|]. split; [exact Hh|]. split.
  - intros Hne t. rewrite Hq1. intros [<-|[]]. exact Hne.
  - intros task u c1 aid a m Hscan Haid Ha Hst Hm H0 Hlt.
    destruct (handle_completion_on_error task u c1 aid a m Hscan Haid Ha Hst Hm)
      as [Hr _].
    by destruct (Hr H0 Hlt).
Qed.

Lemma retry_is_fresh_record_witness :
  let d : details_map := {[ "description" := "find papers on X" ]} in
  let c := run_events
             (failing_run d "boom" (uuid_of 0) [(uuid_of 1, uuid_of 2)] ++
              failing_attempt d "boom" (uuid_of 3, uuid_of 4))
             (init 5 2) in
  task_queue c = [new_task (d, 2, uuid_of 4)].
Proof.
  intros d c.
  assert (H0 : Z.of_nat 2 ≤ 2) by lia.
  assert (H1 : Z.of_nat 2 ≤ 5) by lia.
  destruct (retry_is_fresh_record 5 2 d "boom" (uuid_of 0)
              [(uuid_of 1, uuid_of 2)] (uuid_of 3, uuid_of 4) H0 H1)
    as (_ & Hq & _).
  unfold c. rewrite run_events_app. exact Hq.
Defined.

(** ** The launch loop at capacity *)

Lemma launch_one_at_capacity u c t q :
  task_queue c = t :: q →
  at_capacity c = true →
  launch_one u c =
    fst (assign_task (details t) (retry_count t) u
           (emit (LogCreateFailed (task_id t))
              (emit LogLimitReached (with_task_queue q c)))).
Proof.
  intros Hq Hcap. unfold launch_one. rewrite Hq.
  by rewrite create_agent_full.
Qed.

Lemma launch_one_at_capacity_again u c :
  at_capacity c = true → launch_guard c = true →
  at_capacity (launch_one u c) = true ∧ launch_guard (launch_one u c) = true ∧
  ∃ t q, task_queue c = t :: q ∧
         In (new_task (details t, retry_count t, u)) (task_queue (launch_one u c)).
Proof.
  intros Hcap Hg.
  destruct (task_queue c) as [|t q] eqn:Hq.
  { unfold launch_guard in Hg. rewrite Hq in Hg. done. }
  rewrite (launch_one_at_capacity u c t q Hq Hcap).
  set (c1 := emit (LogCreateFailed (task_id t))
               (emit LogLimitReached (with_task_queue q c))).
  destruct (assign_task_frame (details t) (retry_count t) u c1)
    as (Hag & Hact & _ & HM & _).
  pose proof (assign_task_queue (details t) (retry_count t) u c1) as Hq1.
  assert (Hin : In (new_task (details t, retry_count t, u))
                  (task_queue (fst (assign_task (details t) (retry_count t) u c1)))).
  { rewrite Hq1. destruct (0 <? retry_count t); [by left|].
    apply in_or_app. right. by left. }
  split; [|split].
  - unfold at_capacity in *. by rewrite Hag, HM.
  - unfold launch_guard in *. rewrite Hact, HM.
    apply andb_true_iff in Hg as [_ Hlen]. apply andb_true_iff. split; [|exact Hlen].
    destruct (task_queue (fst (assign_task (details t) (retry_count t) u c1)));
      [destruct Hin | done].
  - by exists t, q.
Qed.

Lemma launch_loop_spins us : ∀ c,
  at_capacity c = true → launch_guard c = true →
  snd (launch_loop us c) = false.
Proof.
  induction us as [|u us IH]; intros c Hcap Hg; simpl; rewrite Hg; [done|].
  destruct (launch_one_at_capacity_again u c Hcap Hg) as (Hcap' & Hg' & _).
  by apply IH.
Qed.

(** C6 (the code at the failing input).  With [max_concurrent_agents = 1],
    once a first task has been processed its agent stays registered.  When
    the dispatcher then finds a second task in the queue, the inner loop
    starts (nothing is in flight), routing fails for lack of capacity, the
    task is put back with its retry count unchanged, and the loop condition
    holds again: the loop is not left.  Whatever uuids are drawn and however
    many passes are made, the loop never ends through its condition. *)
Theorem launch_loop_spins_on_second_task :
  active_tasks stuck_controller = [] ∧
  at_capacity stuck_controller = true ∧
  launch_guard stuck_controller = true ∧
  (∀ u, task_queue (launch_one u stuck_controller) = [new_task (∅, 0, u)] ∧
        launch_guard (launch_one u stuck_controller) = true) ∧
  (∀ us, snd (launch_loop us stuck_controller) = false).
Proof.
  assert (Hcap : at_capacity stuck_controller = true) by (vm_compute; reflexivity).
  assert (Hg : launch_guard stuck_controller = true) by (vm_compute; reflexivity).
  split; [vm_compute; reflexivity|]. split; [exact Hcap|]. split; [exact Hg|].
  split.
  - intros u. split.
    + rewrite (launch_one_at_capacity u stuck_controller
                 (new_task (∅, 0, uuid_of 3)) []);
        [|vm_compute; reflexivity|exact Hcap].
      rewrite assign_task_queue. reflexivity.
    + by destruct (launch_one_at_capacity_again u stuck_controller Hcap Hg) as (_ & ? & _).
  - intros us. by apply launch_loop_spins.
Qed.

(** C2 (the code at the failing input).  With the default configuration
    ([max_concurrent_agents = 5], [max_task_retries = 1]) a task whose
    processing always fails is attempted twice: the callback re-enqueues it
    once and logs the give-up after the second failure.  But nothing records
    the task as failed: [receive_task] swallows the exception, so the
    wrapper marks both attempts ["completed"], and the history holds two
    entries with that status and no error, while both agents are in state
    ["error"].  With a single agent slot ([max_concurrent_agents = 1]) the
    retry is never attempted: the failed agent keeps the slot, the retry
    stays in the queue, no give-up is logged, and the launch loop is not
    left however many passes it makes. *)
Theorem failed_task_is_recorded_completed (msg : string) :
  let c := run_events
             (failing_run ∅ msg (uuid_of 0) [(uuid_of 1, uuid_of 2); (uuid_of 3, uuid_of 4)])
             (init 5 1) in
  let c1 := run_events (failing_run ∅ msg (uuid_of 0) [(uuid_of 1, uuid_of 2)])
              (init 1 1) in
  (count_log is_retrying (log c) = 1%nat ∧ count_log is_giving_up (log c) = 1%nat ∧
   task_queue c = [] ∧ active_tasks c = [] ∧
   completed_tasks_history c =
     [(uuid_of 0, {| task_id := uuid_of 0; details := ∅; status := T_completed;
                     retry_count := 0; error := None |});
      (uuid_of 2, {| task_id := uuid_of 2; details := ∅; status := T_completed;
                     retry_count := 1; error := None |})] ∧
   state <$> agents c =
     {[ make_agent_id "default" (uuid_of 1) := S_error;
        make_agent_id "default" (uuid_of 3) := S_error ]}) ∧
  (task_queue c1 = [new_task (∅, 1, uuid_of 2)] ∧ active_tasks c1 = [] ∧
   count_log is_giving_up (log c1) = 0%nat ∧
   status <$> (snd <$> completed_tasks_history c1) = [T_completed] ∧
   ∀ us, snd (launch_loop us c1) = false ∧
         count_log is_giving_up (log (fst (launch_loop us c1))) = 0%nat ∧
         spawned (fst (launch_loop us c1)) = spawned c1).
Proof.
  intros c c1. split.
  - repeat split; vm_compute; reflexivity.
  - assert (Hcap : at_capacity c1 = true) by (vm_compute; reflexivity).
    assert (Hg : launch_guard c1 = true) by (vm_compute; reflexivity).
    assert (Hlog : count_log is_giving_up (log c1) = 0%nat) by (vm_compute; reflexivity).
    split; [vm_compute; reflexivity|]. split; [vm_compute; reflexivity|].
    split; [exact Hlog|]. split; [vm_compute; reflexivity|].
    generalize c1 Hcap Hg Hlog. clear. intros c1 Hcap Hg Hlog us.
    split; [by apply launch_loop_spins|].
    revert c1 Hcap Hg Hlog. induction us as [|u us IH]; intros c1 Hcap Hg Hlog.
    + simpl. by rewrite Hg.
    + simpl. rewrite Hg.
      destruct (launch_one_at_capacity_again u c1 Hcap Hg) as (Hcap' & Hg' & t & q & Hq & _).
      assert (Hone : count_log is_giving_up (log (launch_one u c1)) = 0%nat ∧
                     spawned (launch_one u c1) = spawned c1).
      { rewrite (launch_one_at_capacity u c1 t q Hq Hcap). unfold assign_task.
        destruct (0 <? retry_count t); simpl; rewrite !count_log_snoc, Hlog; done. }
      destruct Hone as [Hlog' Hsp'].
      destruct (IH (launch_one u c1) Hcap' Hg' Hlog') as [H1 H2].
      split; [exact H1|]. by rewrite H2.
Qed.

(** ** Which tasks reach the history *)

(** C5, as stated, fails: with one agent slot and two tasks, the
    controller is shut down while the first task is being processed.  That
    task is cancelled and recorded; the second one is still in the queue,
    which [shutdown] clears; the run loop has ended and the second task was
    never recorded. *)
Lemma task_loss_counterexample :
  ¬ no_task_loss shutdown_with_a_queued_task (init 1 1).
Proof.
  intros H.
  assert (Hend : loop_alive (run_events shutdown_with_a_queued_task (init 1 1)) = false)
    by (vm_compute; reflexivity).
  specialize (H Hend (uuid_of 1)).
  assert (Hin : In (uuid_of 1) (assigned_ids shutdown_with_a_queued_task))
    by (right; left; reflexivity).
  specialize (H Hin). vm_compute in H. discriminate H.
Qed.

(** A unit that [shutdown] cancels before its first step is not recorded
    either: the body of [_run_agent_task], and with it the append to the
    history, never runs. *)
Example unit_cancelled_before_its_first_step :
  let aid := make_agent_id "default" (uuid_of 2) in
  let evs := [EvAssign ∅ 0 (uuid_of 0); EvLaunch (uuid_of 2); EvShutdownBegin;
              EvUnitEnd aid CancelledDuring; EvCallback aid (uuid_of 3);
              EvShutdownFinish] in
  loop_alive (run_events evs (init 1 1)) = false ∧
  all_recorded evs (init 1 1) = [] ∧
  all_keep_tasks evs (init 1 1) = false.
Proof. repeat split; vm_compute; reflexivity. Qed.

Lemma step_appended_nil ev c :
  (∀ aid po, ev ≠ EvUnitEnd aid po) →
  appended ev c = [] ∧
  completed_tasks_history (step ev c) = completed_tasks_history c.
Proof.
  intros Hev.
  assert (Ha : appended ev c = []).
  { destruct ev; try reflexivity. by destruct (Hev aid po). }
  split; [exact Ha|]. by rewrite step_history, Ha.
Qed.

(** What the history holds.  It is the 50 most recent recorded entries, in
    the order of completion.  An entry is recorded exactly when a unit that
    is processing is resumed and its wrapper runs to the end: one entry,
    under the task id, holding the task record with status ["completed"]
    (also when the agent ended in state ["error"]) or ["cancelled"]; a
    finished unit records nothing more.  No other event (assignment, launch,
    first step, callback, shutdown) changes the history. *)
Lemma history_records_finished_units :
  (∀ M R evs,
     completed_tasks_history (run_events evs (init M R)) =
     lastn 50 (all_recorded evs (init M R))) ∧
  (∀ c aid t po,
     PyDict.get aid (active_tasks c) = Some t →
     aio_phase_of t = Processing →
     let c' := step (EvUnitEnd aid po) c in
     appended (EvUnitEnd aid po) c =
       [(task_id (aio_meta t), with_status (final_status po) (aio_meta t))] ∧
     completed_tasks_history c' =
       deque_append 50 (task_id (aio_meta t), with_status (final_status po) (aio_meta t))
         (completed_tasks_history c) ∧
     ∀ po', appended (EvUnitEnd aid po') c' = [] ∧
            completed_tasks_history (step (EvUnitEnd aid po') c') =
            completed_tasks_history c') ∧
  (∀ ev c,
     (∀ aid po, ev ≠ EvUnitEnd aid po) →
     appended ev c = [] ∧
     completed_tasks_history (step ev c) = completed_tasks_history c).
Proof.
  split; [|split].
  - intros M R evs. by rewrite (history_lastn evs (init M R) []).
  - intros c aid t po Hget Hph c'.
    assert (Ha : appended (EvUnitEnd aid po) c =
                 [(task_id (aio_meta t), with_status (final_status po) (aio_meta t))]).
    { unfold appended. by rewrite Hget, Hph. }
    assert (Hdone : ∀ po', appended (EvUnitEnd aid po') c' = []).
    { intros po'. unfold appended, c'. simpl. unfold unit_end. rewrite Hget, Hph.
      destruct (run_agent_task_resume aid (aio_meta t) po c) as [[c1 meta'] k].
      simpl. by rewrite PyDictFacts.get_set_eq. }
    split; [exact Ha|]. split.
    + unfold c'. by rewrite step_history, Ha.
    + intros po'. split; [apply Hdone|]. by rewrite step_history, Hdone.
  - apply step_appended_nil.
Qed.

Lemma history_records_finished_units_example :
  let evs := [EvAssign ∅ 0 (uuid_of 0); EvLaunch (uuid_of 1);
              EvUnitStart (make_agent_id "default" (uuid_of 1))] in
  let c := run_events evs (init 5 1) in
  let aid := make_agent_id "default" (uuid_of 1) in
  completed_tasks_history (step (EvUnitEnd aid (Failed "boom")) c) =
  [(uuid_of 0, with_status T_completed (new_task (∅, 0, uuid_of 0)))].
Proof.
  intros evs c aid.
  destruct history_records_finished_units as (_ & Hunit & _).
  destruct (Hunit c aid (AioTask 0 (with_status T_running (new_task (∅, 0, uuid_of 0)))
                           Processing) (Failed "boom"))
    as (_ & Hh & _).
  - vm_compute. reflexivity.
  - reflexivity.
  - etransitivity; [exact Hh|]. vm_compute. reflexivity.
Defined.

(** ** No task is lost before shutdown *)

Lemma units_where_set_present p k v v' d :
  PyDict.get k d = Some v →
  (units_where p (PyDict.set k v' d) + Nat.b2n (p v) =
   units_where p d + Nat.b2n (p v'))%nat.
Proof.
  unfold units_where. induction d as [|[k0 v0] d IH]; simpl; [done|].
  destruct (decide (k0 = k)) as [->|Hne].
  - intros [= ->]. simpl. destruct (p v), (p v'); simpl; lia.
  - intros H. specialize (IH H). simpl. destruct (p v0); simpl; lia.
Qed.

Lemma units_where_set_absent p k v' d :
  PyDict.get k d = None →
  units_where p (PyDict.set k v' d) = (units_where p d + Nat.b2n (p v'))%nat.
Proof.
  unfold units_where. induction d as [|[k0 v0] d IH]; simpl.
  - intros _. by destruct (p v').
  - destruct (decide (k0 = k)) as [->|Hne]; [done|].
    intros H. specialize (IH H). simpl. destruct (p v0); simpl; lia.
Qed.

Lemma get_keys {V} k (d : list (string * V)) :
  PyDict.get k d = None ↔ k ∉ d.*1.
Proof.
  induction d as [|[k0 v0] d IH]; simpl.
  - split; [intros _; apply not_elem_of_nil | done].
  - rewrite not_elem_of_cons. destruct (decide (k0 = k)) as [->|Hne].
    + split; [done | by intros [? _]].
    + rewrite IH. split; [by intros ? | by intros [_ ?]].
Qed.

Lemma keys_set {V} k (v : V) d x :
  x ∈ (PyDict.set k v d).*1 → x = k ∨ x ∈ d.*1.
Proof.
  induction d as [|[k0 v0] d IH]; simpl.
  - intros [->|H]%elem_of_cons; [by left | by apply elem_of_nil in H].
  - destruct (decide (k0 = k)) as [->|Hne]; simpl.
    + intros [->|H]%elem_of_cons; [by left | right; by right].
    + intros [->|H]%elem_of_cons; [right; by left|].
      destruct (IH H) as [->|H']; [by left | right; by right].
Qed.

Lemma keys_del {V} k (d : list (string * V)) x :
  x ∈ (PyDict.del k d).*1 → x ∈ d.*1.
Proof.
  induction d as [|[k0 v0] d IH]; simpl; [done|].
  destruct (decide (k0 = k)) as [->|Hne]; simpl.
  - intros H. right. by apply IH.
  - intros [->|H]%elem_of_cons; [by left | right; by apply IH].
Qed.

Lemma NoDup_keys_set {V} k (v : V) d :
  NoDup d.*1 → NoDup (PyDict.set k v d).*1.
Proof.
  induction d as [|[k0 v0] d IH]; simpl.
  - intros _. apply NoDup_singleton.
  - intros [Hk0 Hd]%NoDup_cons. destruct (decide (k0 = k)) as [->|Hne]; simpl.
    + by apply NoDup_cons.
    + apply NoDup_cons. split; [|by apply IH].
      intros [->|H]%keys_set; done.
Qed.

Lemma NoDup_keys_del {V} k (d : list (string * V)) :
  NoDup d.*1 → NoDup (PyDict.del k d).*1.
Proof.
  induction d as [|[k0 v0] d IH]; simpl; [done|].
  intros [Hk0 Hd]%NoDup_cons. destruct (decide (k0 = k)) as [->|Hne]; simpl.
  - by apply IH.
  - apply NoDup_cons. split; [|by apply IH]. intros H%keys_del. done.
Qed.

Lemma del_absent {V} k (d : list (string * V)) :
  k ∉ d.*1 → PyDict.del k d = d.
Proof.
  induction d as [|[k0 v0] d IH]; simpl; [done|].
  intros [Hne Hd]%not_elem_of_cons.
  rewrite decide_False by done. by rewrite IH.
Qed.

Lemma units_where_del p k v d :
  NoDup d.*1 → PyDict.get k d = Some v →
  (units_where p (PyDict.del k d) + Nat.b2n (p v) = units_where p d)%nat.
Proof.
  unfold units_where. induction d as [|[k0 v0] d IH]; simpl; [done|].
  intros [Hk0 Hd]%NoDup_cons. destruct (decide (k0 = k)) as [->|Hne].
  - intros [= ->]. rewrite del_absent by done. simpl. destruct (p v); simpl; lia.
  - intros H. specialize (IH Hd H). simpl. destruct (p v0); simpl; lia.
Qed.

Lemma step_keys ev c :
  NoDup (active_tasks c).*1 → NoDup (active_tasks (step ev c)).*1.
Proof.
  intros Hc. destruct ev as [d r u|u|aid|aid po|aid u| |]; simpl.
  - by destruct (assign_task_frame d r u c) as (_ & -> & _).
  - destruct (loop_alive c && launch_guard c); [|done].
    unfold launch_one. destruct (task_queue c) as [|t q]; [done|].
    destruct (at_capacity (with_task_queue q c)) eqn:Hcap.
    + rewrite create_agent_full by done.
      by destruct (assign_task_frame (details t) (retry_count t) u
                     (emit (LogCreateFailed (task_id t))
                        (emit LogLimitReached (with_task_queue q c))))
        as (_ & -> & _).
    + destruct (create_agent_room (hint_of (details t)) (details t) u _ Hcap)
        as (cls & c1 & -> & [->| ->]); simpl; by apply NoDup_keys_set.
  - unfold unit_start, run_agent_task_begin.
    destruct (PyDict.get aid (active_tasks c)) as [t|]; [|done].
    destruct (aio_phase_of t); try done.
    destruct (agents c !! aid); simpl; by apply NoDup_keys_set.
  - unfold unit_end.
    destruct (PyDict.get aid (active_tasks c)) as [t|]; [|done].
    destruct (aio_phase_of t).
    + destruct po; try done. simpl. by apply NoDup_keys_set.
    + unfold run_agent_task_resume, receive_agent_update, receive_task_resume.
      repeat (case_match; simpl in *; simplify_eq); by apply NoDup_keys_set.
    + by destruct po.
  - unfold callback.
    destruct (PyDict.get aid (active_tasks c)) as [t|]; [|done].
    destruct (aio_phase_of t); try done.
    rewrite handle_task_completion_active.
    destruct (scan_active t (active_tasks c)); [|done].
    destruct (decide (s = "")); [done|]. by apply NoDup_keys_del.
  - done.
  - apply NoDup_nil_2.
Qed.

Lemma assign_task_counts tid d r u c :
  queued tid (fst (assign_task d r u c)) = (queued tid c + Nat.b2n (String.eqb u tid))%nat ∧
  count_log (enqueued_as tid) (log (fst (assign_task d r u c))) =
    (count_log (enqueued_as tid) (log c) + Nat.b2n (String.eqb u tid))%nat ∧
  in_flight tid (fst (assign_task d r u c)) = in_flight tid c.
Proof.
  unfold assign_task, queued, in_flight.
  destruct (0 <? r); simpl; rewrite count_log_snoc; simpl;
    rewrite ?List.filter_app, ?length_app; simpl;
    destruct (String.eqb u tid); simpl; repeat split; lia.
Qed.

Lemma run_agent_task_resume_counts tid aid meta po c :
  let '(c1, meta', k) := run_agent_task_resume aid meta po c in
  task_queue c1 = task_queue c ∧ active_tasks c1 = active_tasks c ∧
  meta' = with_status (final_status po) meta ∧
  count_log (enqueued_as tid) (log c1) = count_log (enqueued_as tid) (log c).
Proof.
  unfold run_agent_task_resume, receive_agent_update, receive_task_resume.
  destruct po, (agents c !! aid) eqn:Ha; simpl;
    rewrite ?lookup_insert_eq, ?Ha; simpl; rewrite ?count_log_snoc; simpl;
    repeat split; lia.
Qed.

Lemma handle_task_completion_counts tid task u c :
  let c' := fst (_handle_task_completion task u c) in
  (queued tid c' + count_log (enqueued_as tid) (log c) =
   queued tid c + count_log (enqueued_as tid) (log c'))%nat.
Proof.
  unfold _handle_task_completion, retry_decision, assign_task, queued.
  repeat (case_match; simpl in *; simplify_eq);
    rewrite ?count_log_snoc; simpl;
    rewrite ?List.filter_app, ?length_app; simpl;
    repeat case_match; simpl; lia.
Qed.

Lemma step_conserves tid ev c :
  wf c → NoDup (active_tasks c).*1 → keeps_tasks ev c = true →
  (queued tid (step ev c) + in_flight tid (step ev c) +
   occurrences tid (appended ev c) + count_log (enqueued_as tid) (log c) =
   queued tid c + in_flight tid c + count_log (enqueued_as tid) (log (step ev c)))%nat.
Proof.
  intros Hwf Hnd Hk. destruct ev as [d r u|u|aid|aid po|aid u| |].
  - change (appended _ c) with (@nil (string * task)).
    change (step _ c) with (fst (assign_task d r u c)).
    destruct (assign_task_counts tid d r u c) as (-> & -> & ->).
    unfold occurrences. simpl. lia.
  - change (appended _ c) with (@nil (string * task)).
    unfold occurrences. simpl. simpl in Hk.
    destruct (loop_alive c && launch_guard c); [|lia].
    unfold launch_one. destruct (task_queue c) as [|t q] eqn:Hq; [rewrite ?Hq; lia|].
    apply andb_true_iff in Hk as [Hcap Hfresh].
    apply negb_true_iff in Hcap. apply negb_true_iff, bool_decide_eq_false in Hfresh.
    assert (Hcap' : at_capacity (with_task_queue q c) = false) by exact Hcap.
    assert (Hget : PyDict.get (make_agent_id (hint_of (details t)) u) (active_tasks c) = None).
    { destruct (PyDict.get (make_agent_id (hint_of (details t)) u) (active_tasks c))
        as [x|] eqn:Hx; [|done].
      apply PyDictFacts.get_In in Hx. destruct Hwf as [H1 _].
      destruct (H1 _ _ Hx) as (_ & _ & Hs). done. }
    destruct (create_agent_room (hint_of (details t)) (details t) u _ Hcap')
      as (cls & c1 & -> & [->| ->]); simpl;
      unfold in_flight, queued; simpl; rewrite Hq; simpl;
      rewrite (units_where_set_absent _ _ _ _ Hget); unfold is_unit_of, live; simpl;
      rewrite !count_log_snoc; simpl;
      destruct (String.eqb (task_id t) tid); simpl; lia.
  - change (appended _ c) with (@nil (string * task)).
    unfold occurrences. simpl.
    unfold unit_start, run_agent_task_begin.
    destruct (PyDict.get aid (active_tasks c)) as [t|] eqn:Hget; [|lia].
    destruct (aio_phase_of t) eqn:Hph; try lia.
    pose proof (units_where_set_present (is_unit_of tid) aid t
                  (with_phase Processing t) (active_tasks c) Hget) as Hset.
    assert (Hsame : is_unit_of tid (with_phase Processing t) = is_unit_of tid t).
    { unfold is_unit_of, live. simpl. by rewrite Hph. }
    rewrite Hsame in Hset.
    destruct (agents c !! aid); simpl; unfold in_flight, queued; simpl; lia.
  - simpl. unfold unit_end, appended.
    destruct (PyDict.get aid (active_tasks c)) as [t|] eqn:Hget;
      [|unfold occurrences; simpl; lia].
    destruct (aio_phase_of t) eqn:Hph.
    + destruct po; try (unfold occurrences; simpl; lia).
      simpl in Hk. by rewrite Hget, Hph in Hk.
    + pose proof (run_agent_task_resume_counts tid aid (aio_meta t) po c) as Hres.
      destruct (run_agent_task_resume aid (aio_meta t) po c) as [[c1 meta'] k].
      destruct Hres as (Hq1 & Ha1 & Hm & Hl1). simpl.
      pose proof (units_where_set_present (is_unit_of tid) aid t
                    (AioTask (aio_id t) meta' (Done (raised k))) (active_tasks c) Hget)
        as Hset.
      unfold in_flight, queued. simpl. rewrite Hq1, Ha1, Hl1.
      assert (Hold : is_unit_of tid t = String.eqb (task_id (aio_meta t)) tid).
      { unfold is_unit_of, live. by rewrite Hph. }
      assert (Hnew : is_unit_of tid (AioTask (aio_id t) meta' (Done (raised k))) = false)
        by reflexivity.
      rewrite Hold, Hnew in Hset.
      unfold occurrences, history_entry. simpl.
      destruct (String.eqb (task_id (aio_meta t)) tid); simpl in *; lia.
    + destruct po; unfold occurrences; simpl; lia.
  - change (appended _ c) with (@nil (string * task)).
    unfold occurrences. simpl. unfold callback.
    destruct (PyDict.get aid (active_tasks c)) as [t|] eqn:Hget; [|lia].
    destruct (aio_phase_of t) eqn:Hph; try lia.
    pose proof (handle_task_completion_counts tid t u c) as Hcnt. simpl in Hcnt.
    pose proof (handle_task_completion_active t u c) as Hact.
    pose proof (PyDictFacts.get_In _ _ _ Hget) as Hin.
    rewrite (scan_active_found _ _ _ aid t t Hwf Hin eq_refl) in Hact.
    destruct Hwf as [H1 _]. destruct (H1 _ _ Hin) as (_ & Hne & _).
    rewrite decide_False in Hact by done.
    pose proof (units_where_del (is_unit_of tid) aid t (active_tasks c) Hnd Hget) as Hdel.
    assert (Hold : is_unit_of tid t = false).
    { unfold is_unit_of, live. by rewrite Hph. }
    rewrite Hold in Hdel. simpl in Hdel.
    unfold in_flight. rewrite Hact. lia.
  - change (appended _ c) with (@nil (string * task)).
    unfold occurrences. simpl. rewrite count_log_snoc. simpl.
    unfold in_flight, queued. simpl. lia.
  - change (appended _ c) with (@nil (string * task)).
    unfold occurrences. simpl. simpl in Hk.
    apply andb_true_iff in Hk as [Hq Hall]. apply bool_decide_eq_true in Hq.
    unfold in_flight, queued, units_where. simpl. rewrite Hq. simpl.
    assert (Hz : ∀ d, forallb (fun kv : string * aio_task => negb (live kv.2)) d = true →
                 length (List.filter (fun kv => is_unit_of tid kv.2) d) = 0%nat).
    { induction d as [|kv d IH]; simpl; [done|].
      intros [Hl Hd]%andb_true_iff. apply negb_true_iff in Hl.
      unfold is_unit_of at 1. rewrite Hl. simpl. by apply IH. }
    rewrite (Hz _ Hall). lia.
Qed.

Lemma run_conserves tid evs : ∀ c,
  wf c → NoDup (active_tasks c).*1 → all_keep_tasks evs c = true →
  (queued tid (run_events evs c) + in_flight tid (run_events evs c) +
   occurrences tid (all_recorded evs c) + count_log (enqueued_as tid) (log c) =
   queued tid c + in_flight tid c +
   count_log (enqueued_as tid) (log (run_events evs c)))%nat.
Proof.
  induction evs as [|ev evs IH]; intros c Hwf Hnd Hk.
  - unfold occurrences. simpl. lia.
  - simpl in Hk. apply andb_true_iff in Hk as [Hk Hks].
    rewrite run_events_cons. simpl all_recorded.
    specialize (IH (step ev c) (step_wf ev c Hwf) (step_keys ev c Hnd) Hks).
    pose proof (step_conserves tid ev c Hwf Hnd Hk) as Hs.
    unfold occurrences in *. rewrite List.filter_app, length_app. lia.
Qed.

Lemma log_grows p ev c :
  (count_log p (log c) ≤ count_log p (log (step ev c)))%nat.
Proof.
  assert (Hem : ∀ l r, (count_log p l ≤ count_log p (l ++ [r]))%nat).
  { intros l r. rewrite count_log_snoc. lia. }
  unfold_ops; repeat (case_match; simpl in *; simplify_eq); try done;
    repeat (etransitivity; [|apply Hem]); done.
Qed.

Lemma assigned_is_logged tid evs : ∀ c,
  In tid (assigned_ids evs) →
  (1 ≤ count_log (enqueued_as tid) (log (run_events evs c)))%nat.
Proof.
  assert (Hmono : ∀ evs c, (count_log (enqueued_as tid) (log c) ≤
                            count_log (enqueued_as tid) (log (run_events evs c)))%nat).
  { induction evs0 as [|ev evs0 IH]; intros c; [done|].
    rewrite run_events_cons. etransitivity; [apply log_grows|apply IH]. }
  induction evs as [|ev evs IH]; intros c Hin; [done|].
  rewrite run_events_cons. simpl in Hin. apply in_app_or in Hin as [Hin|Hin].
  - destruct ev as [d r u| | | | | |]; try done.
    destruct Hin as [->|[]].
    etransitivity; [|apply Hmono]. simpl.
    destruct (assign_task_counts tid d r tid c) as (_ & -> & _).
    rewrite String.eqb_refl. simpl. lia.
  - by apply IH.
Qed.

Lemma recorded_is_terminal evs : ∀ c e,
  In e (all_recorded evs c) →
  e.1 = task_id e.2 ∧ (status e.2 = T_completed ∨ status e.2 = T_cancelled).
Proof.
  induction evs as [|ev evs IH]; intros c e; [done|].
  simpl. intros [Hin|Hin]%in_app_or; [|by eapply IH].
  unfold appended in Hin. repeat case_match; try done.
  destruct Hin as [<-|[]]. unfold history_entry, final_status. simpl.
  split; [done|]. case_match; auto.
Qed.

(** C5, amended.  Up to the end of [shutdown] no task is lost or
    duplicated.  In a run from the initial state in which every launch
    gets its agent under an id not yet in use, no unit is cancelled before
    its first step, and [shutdown] ends only with the queue empty and every
    unit done: at any moment each task id is in the queue, with a unit
    whose wrapper has not finished, or recorded in the history, as many
    times in all as [assign_task] handed it out; a task id given to a
    caller was handed out at least once.  So once the queue is empty and
    every unit is done, each task handed out once has been recorded exactly
    once.  Every entry recorded sits under its task id with status completed
    or cancelled, and the history is the last 50 of them. *)
Theorem no_task_lost_before_shutdown (M R : Z) (evs : list event) :
  all_keep_tasks evs (init M R) = true →
  let c := run_events evs (init M R) in
  let recorded := all_recorded evs (init M R) in
  (∀ tid, (queued tid c + in_flight tid c + occurrences tid recorded)%nat
          = count_log (enqueued_as tid) (log c)) ∧
  (∀ tid, In tid (assigned_ids evs) → (1 ≤ count_log (enqueued_as tid) (log c))%nat) ∧
  (∀ tid, task_queue c = [] →
          (∀ aid u, In (aid, u) (active_tasks c) → live u = false) →
          count_log (enqueued_as tid) (log c) = 1%nat →
          occurrences tid recorded = 1%nat) ∧
  (∀ e, In e recorded →
        e.1 = task_id e.2 ∧ (status e.2 = T_completed ∨ status e.2 = T_cancelled)) ∧
  completed_tasks_history c = lastn 50 recorded.
Proof.
  intros Hk c recorded.
  assert (Hcons : ∀ tid, (queued tid c + in_flight tid c + occurrences tid recorded)%nat
                         = count_log (enqueued_as tid) (log c)).
  { intros tid.
    pose proof (run_conserves tid evs (init M R) (wf_init M R)) as H.
    specialize (H ltac:(simpl; apply NoDup_nil_2) Hk).
    fold c in H. fold recorded in H.
    change (queued tid (init M R)) with 0%nat in H.
    change (in_flight tid (init M R)) with 0%nat in H.
    change (count_log (enqueued_as tid) (log (init M R))) with 0%nat in H. lia. }
  split; [exact Hcons|]. split; [|split; [|split]].
  - intros tid Hin. by apply assigned_is_logged.
  - intros tid Hq Hdone Hone. specialize (Hcons tid).
    assert (Hq0 : queued tid c = 0%nat) by (unfold queued; by rewrite Hq).
    assert (Hf0 : in_flight tid c = 0%nat).
    { unfold in_flight, units_where.
      assert (Hz : ∀ d, (∀ aid u, In (aid, u) d → live u = false) →
                   length (List.filter (fun kv : string * aio_task => is_unit_of tid kv.2) d)
                   = 0%nat).
      { induction d as [|[k u] d IH]; simpl; [done|]. intros Hd.
        unfold is_unit_of at 1. simpl. rewrite (Hd k u) by (by left). simpl.
        apply IH. intros aid u' Hin. apply (Hd aid u'). by right. }
      by apply Hz. }
    lia.
  - apply recorded_is_terminal.
  - exact (history_lastn evs (init M R) [] eq_refl).
Qed.

Lemma no_task_lost_before_shutdown_witness :
  let evs := one_task_events 0 ∅ (Failed "boom") ++ [EvShutdownBegin; EvShutdownFinish] in
  occurrences (uuid_of 0) (all_recorded evs (init 5 0)) = 1%nat.
Proof.
  intros evs.
  destruct (no_task_lost_before_shutdown 5 0 evs) as (_ & _ & Hdone & _).
  - vm_compute. reflexivity.
  - apply Hdone.
    + vm_compute. reflexivity.
    + intros aid u Hin. vm_compute in Hin. destruct Hin.
    + vm_compute. reflexivity.
Defined.

(** * More of the code: the memory system *)

Lemma dict_get_insert k v d : dict_get k (<[k := v]> d) = v.
Proof. unfold dict_get. by rewrite lookup_insert_eq. Qed.

Lemma dict_get_insert_ne k k' v d :
  k ≠ k' → dict_get k' (<[k := v]> d) = dict_get k' d.
Proof. intros H. unfold dict_get. by rewrite lookup_insert_ne. Qed.

Lemma dict_get_delete k d : dict_get k (delete k d) = PNone.
Proof. unfold dict_get. by rewrite lookup_delete_eq. Qed.

Lemma dict_get_delete_ne k k' d :
  k ≠ k' → dict_get k' (delete k d) = dict_get k' d.
Proof. intros H. unfold dict_get. by rewrite lookup_delete_ne. Qed.

(** What a key resolves to, in terms of the two layers. *)
Lemma lookup_memory_layers k m :
  lookup_memory k m =
  match dict_get k (short_term_memory m) with
  | PNone =>
      match backend_type m with
      | JsonFile => dict_get k (backend_client m)
      | ShortTermOnly => PNone
      end
  | v => v
  end.
Proof.
  unfold lookup_memory, retrieve.
  destruct (dict_get k (short_term_memory m)); try reflexivity.
  destruct (backend_type m); [|reflexivity].
  by destruct (dict_get k (backend_client m)).
Qed.

Lemma retrieve_store k v st chk m :
  v ≠ PNone → retrieve k chk (store k v st m) = (store k v st m, v).
Proof.
  intros Hv. unfold retrieve, store.
  destruct st, (backend_type m); simpl; rewrite dict_get_insert;
    by destruct v.
Qed.

Lemma lookup_store_ne k k' v st m :
  k' ≠ k → lookup_memory k' (store k v st m) = lookup_memory k' m.
Proof.
  intros Hne. rewrite !lookup_memory_layers.
  unfold store. destruct st, (backend_type m) eqn:Hb; simpl;
    rewrite ?Hb, ?dict_get_insert_ne by done; reflexivity.
Qed.

(** X1.  A value other than [None] that was stored is what [retrieve]
    returns for its key, on either backend, short-term or long-term, with or
    without the look into the backend; that [retrieve] changes nothing; and
    the other keys resolve as before the [store]. *)
Theorem store_then_retrieve (k : string) (v : py_value) (st chk : bool)
    (m : MemorySystem) :
  v ≠ PNone →
  retrieve k chk (store k v st m) = (store k v st m, v) ∧
  ∀ k', k' ≠ k → lookup_memory k' (store k v st m) = lookup_memory k' m.
Proof.
  intros Hv. split.
  - by apply retrieve_store.
  - intros k' Hne. by apply lookup_store_ne.
Qed.

Lemma store_then_retrieve_witness :
  snd (retrieve "a_last_result" false
         (store "a_last_result" (PStr "42") false (Memory JsonFile ∅ ∅))) = PStr "42".
Proof.
  assert (H : PStr "42" ≠ PNone) by discriminate.
  destruct (store_then_retrieve "a_last_result" (PStr "42") false false
              (Memory JsonFile ∅ ∅) H) as [-> _].
  reflexivity.
Defined.

(** X2.  [retrieve] never changes what any key resolves to.  A value in
    the cache is returned as it is and nothing changes; on a miss, when
    asked to look further and the JSON file backend holds a value for the
    key, that value is returned and a copy of it is put in the cache; in
    every other case the answer is [None] and nothing changes.  The backend
    is never written by [retrieve]. *)
Theorem retrieve_is_read_only (k : string) (chk : bool) (m : MemorySystem) :
  (∀ k', lookup_memory k' (fst (retrieve k chk m)) = lookup_memory k' m) ∧
  backend_client (fst (retrieve k chk m)) = backend_client m ∧
  backend_type (fst (retrieve k chk m)) = backend_type m ∧
  (chk = true → snd (retrieve k chk m) = lookup_memory k m) ∧
  (chk = false → snd (retrieve k chk m) = dict_get k (short_term_memory m)) ∧
  (dict_get k (short_term_memory m) ≠ PNone →
   retrieve k chk m = (m, dict_get k (short_term_memory m))) ∧
  (dict_get k (short_term_memory m) = PNone →
   backend_type m = JsonFile → dict_get k (backend_client m) ≠ PNone →
   retrieve k true m =
     (Memory JsonFile (<[k := dict_get k (backend_client m)]> (short_term_memory m))
        (backend_client m),
      dict_get k (backend_client m))) ∧
  (dict_get k (short_term_memory m) = PNone →
   chk = false ∨ backend_type m = ShortTermOnly ∨ dict_get k (backend_client m) = PNone →
   retrieve k chk m = (m, PNone)) ∧
  (∀ k', layered_value k' (fst (retrieve k chk m)) = layered_value k' m).
Proof.
  assert (Hlayers : ∀ k' m', lookup_memory k' m' = layered_value k' m')
    by apply lookup_memory_layers.
  assert (Hstate : fst (retrieve k chk m) = m ∨
                   ∃ v, backend_type m = JsonFile ∧
                        dict_get k (short_term_memory m) = PNone ∧
                        dict_get k (backend_client m) = v ∧ v ≠ PNone ∧
                        fst (retrieve k chk m) =
                          Memory JsonFile (<[k := v]> (short_term_memory m))
                            (backend_client m)).
  { unfold retrieve.
    destruct (dict_get k (short_term_memory m)) eqn:Hc; auto.
    destruct chk; auto. destruct (backend_type m) eqn:Hb; auto.
    destruct (dict_get k (backend_client m)) eqn:Hd; auto;
      right; eexists; repeat split; done. }
  assert (Hsame : ∀ k', lookup_memory k' (fst (retrieve k chk m)) = lookup_memory k' m).
  { intros k'. destruct Hstate as [-> | (v & Hb & Hc & Hd & Hv & ->)]; [done|].
    rewrite !lookup_memory_layers. simpl. rewrite Hb.
    destruct (decide (k = k')) as [<-|Hne].
    + rewrite dict_get_insert, Hc, Hd. by destruct v.
    + by rewrite dict_get_insert_ne. }
  split; [exact Hsame|]. split; [|split; [|split; [|split; [|split; [|split; [|split]]]]]].
  - by destruct Hstate as [-> | (v & Hb & _ & _ & _ & ->)].
  - by destruct Hstate as [-> | (v & Hb & _ & _ & _ & ->)].
  - intros ->. reflexivity.
  - intros ->. unfold retrieve. by destruct (dict_get k (short_term_memory m)).
  - intros Hc. unfold retrieve. by destruct (dict_get k (short_term_memory m)).
  - intros Hc Hb Hv. unfold retrieve. rewrite Hc, Hb.
    by destruct (dict_get k (backend_client m)).
  - intros Hc Hno. unfold retrieve. rewrite Hc.
    destruct chk; [|done]. destruct (backend_type m); [|done].
    destruct Hno as [Hno|[Hno|Hno]]; [done|done|by rewrite Hno].
  - intros k'. by rewrite <- !Hlayers.
Qed.

Lemma retrieve_is_read_only_witness :
  let m := Memory JsonFile ∅ {[ "plan" := PStr "step 1" ]} in
  snd (retrieve "plan" true m) = PStr "step 1" ∧
  snd (retrieve "plan" false (fst (retrieve "plan" true m))) = PStr "step 1".
Proof.
  intros m.
  destruct (retrieve_is_read_only "plan" true m) as (Hsame & _ & _ & Hchk & _).
  split.
  - rewrite (Hchk eq_refl). reflexivity.
  - reflexivity.
Defined.

Lemma delete_key_shape k m :
  ∃ bc, fst (delete_key k m) =
        Memory (backend_type m) (delete k (short_term_memory m)) bc ∧
        (backend_type m = JsonFile → bc = delete k (backend_client m)).
Proof.
  unfold delete_key. destruct (backend_type m) eqn:Hb.
  - destruct (backend_client m !! k) eqn:Hk; simpl; eexists; split; try done.
    intros _. by rewrite delete_id.
  - eexists; split; done.
Qed.

Lemma retrieve_delete k chk m :
  retrieve k chk (fst (delete_key k m)) = (fst (delete_key k m), PNone).
Proof.
  destruct (delete_key_shape k m) as (bc & Hd & Hbc).
  rewrite Hd. unfold retrieve. simpl. rewrite dict_get_delete.
  destruct chk; [|done]. destruct (backend_type m) eqn:Hb; [|done].
  rewrite (Hbc eq_refl), dict_get_delete. done.
Qed.

(** X3.  After [delete] the key resolves to [None] in both layers, the
    other keys resolve as before, and the answer is [True] as soon as the
    key held a truthy value. *)
Theorem delete_then_retrieve (k : string) (chk : bool) (m : MemorySystem) :
  snd (retrieve k chk (fst (delete_key k m))) = PNone ∧
  fst (retrieve k chk (fst (delete_key k m))) = fst (delete_key k m) ∧
  (∀ k', k' ≠ k → lookup_memory k' (fst (delete_key k m)) = lookup_memory k' m) ∧
  (truthy (lookup_memory k m) = true → snd (delete_key k m) = true).
Proof.
  split; [|split; [|split]].
  - by rewrite retrieve_delete.
  - by rewrite retrieve_delete.
  - destruct (delete_key_shape k m) as (bc & Hd & Hbc).
    intros k' Hne. rewrite Hd, !lookup_memory_layers. simpl.
    rewrite dict_get_delete_ne by done.
    destruct (dict_get k' (short_term_memory m)); try done.
    destruct (backend_type m) eqn:Hb; [|done].
    by rewrite (Hbc eq_refl), dict_get_delete_ne.
  - rewrite lookup_memory_layers. unfold delete_key.
    destruct (dict_get k (short_term_memory m)) eqn:Hc.
    + destruct (backend_type m); [|done].
      unfold dict_get. destruct (backend_client m !! k); done.
    + intros Ht. destruct (backend_type m); [|done].
      by destruct (backend_client m !! k).
    + intros Ht. destruct (backend_type m); [|done].
      by destruct (backend_client m !! k).
Qed.

Lemma delete_then_retrieve_witness :
  let m := store "k" (PStr "v") false (Memory JsonFile ∅ ∅) in
  snd (delete_key "k" m) = true ∧
  snd (retrieve "k" true (fst (delete_key "k" m))) = PNone.
Proof.
  intros m.
  destruct (delete_then_retrieve "k" true m) as (Hgone & _ & _ & Htrue).
  split; [apply Htrue; reflexivity | exact Hgone].
Defined.

(** X4.  [delete] answers with the truth value of what it popped from the
    cache.  So a value that is not [None] but falsy (the empty string, an
    empty list), kept in the cache only, can be retrieved, is removed by
    [delete], and yet [delete] answers [False], as for a key it did not
    find. *)
Theorem delete_reports_falsy_value_as_missing (k : string) (v : py_value)
    (m : MemorySystem) :
  v ≠ PNone →
  truthy v = false →
  backend_client m !! k = None →
  let m1 := store k v true m in
  snd (retrieve k true m1) = v ∧
  snd (delete_key k m1) = false ∧
  snd (retrieve k true (fst (delete_key k m1))) = PNone.
Proof.
  intros Hv Hf Hk m1.
  pose proof (retrieve_store k v true true m Hv) as Hr. fold m1 in Hr.
  split; [by rewrite Hr|]. split.
  - unfold delete_key, m1, store. simpl. rewrite dict_get_insert.
    destruct (backend_type m); simpl; [by rewrite Hk|done].
  - by rewrite retrieve_delete.
Qed.

Lemma delete_reports_falsy_value_as_missing_witness :
  let m1 := store "note" (PStr "") true (Memory ShortTermOnly ∅ ∅) in
  snd (retrieve "note" true m1) = PStr "" ∧ snd (delete_key "note" m1) = false.
Proof.
  intros m1.
  assert (H1 : PStr "" ≠ PNone) by discriminate.
  assert (H2 : backend_client (Memory ShortTermOnly ∅ ∅) !! "note" = None)
    by apply lookup_empty.
  destruct (delete_reports_falsy_value_as_missing "note" (PStr "")
              (Memory ShortTermOnly ∅ ∅) H1 eq_refl H2) as (Hr & Hd & _).
  split; [exact Hr | exact Hd].
Defined.

Lemma lookup_reopened json_cycle k m :
  lookup_memory k (reopened json_cycle m) =
  match backend_type m with
  | JsonFile => dict_get k (saved json_cycle (backend_client m))
  | ShortTermOnly => PNone
  end.
Proof.
  rewrite lookup_memory_layers. unfold reopened.
  destruct (backend_type m); simpl; unfold dict_get at 1; by rewrite lookup_empty.
Qed.

Lemma dict_get_saved json_cycle k d :
  json_ok json_cycle d →
  dict_get k (saved json_cycle d) = default PNone (d !! k ≫= json_image json_cycle).
Proof.
  intros Hok. unfold saved, dict_get. rewrite decide_True by done.
  by rewrite lookup_omap.
Qed.

Lemma saved_truncated json_cycle d : ¬ json_ok json_cycle d → saved json_cycle d = ∅.
Proof. intros Hno. unfold saved. by rewrite decide_False. Qed.

(** X5.  What another [MemorySystem] on the same backend sees.  A
    short-term [store] never writes the backend, so it is invisible there.
    A long-term [store] with the JSON file backend is visible there as what
    the JSON library makes of the value (a tuple is read back as a list),
    provided every value of the dict can be serialised; when one cannot, the
    file is left truncated and the other instance finds nothing at all.
    With the cache-only backend nothing is shared.  A short-term [store]
    over a long-term one leaves the two instances with different answers. *)
Theorem what_survives_reopening (json_cycle : py_value → option py_value)
    (k : string) (v v' : py_value) (m : MemorySystem) :
  (∀ k', lookup_memory k' (reopened json_cycle (store k v true m))
         = lookup_memory k' (reopened json_cycle m)) ∧
  (backend_type m = JsonFile → json_ok json_cycle (<[k := v]> (backend_client m)) →
   ∀ w, json_image json_cycle v = Some w →
        lookup_memory k (reopened json_cycle (store k v false m)) = w) ∧
  (backend_type m = JsonFile → ¬ json_ok json_cycle (<[k := v]> (backend_client m)) →
   ∀ k', lookup_memory k' (reopened json_cycle (store k v false m)) = PNone) ∧
  (backend_type m = ShortTermOnly →
   ∀ k', lookup_memory k' (reopened json_cycle (store k v false m)) = PNone) ∧
  (v' ≠ PNone → backend_type m = JsonFile →
   json_ok json_cycle (<[k := v]> (backend_client m)) →
   ∀ w, json_image json_cycle v = Some w →
        let m2 := store k v' true (store k v false m) in
        lookup_memory k m2 = v' ∧ lookup_memory k (reopened json_cycle m2) = w).
Proof.
  assert (Hlong : backend_type m = JsonFile →
                  json_ok json_cycle (<[k := v]> (backend_client m)) →
                  ∀ w, json_image json_cycle v = Some w →
                       dict_get k (saved json_cycle (<[k := v]> (backend_client m))) = w).
  { intros Hb Hok w Hw. rewrite dict_get_saved by done.
    rewrite lookup_insert_eq. simpl. by rewrite Hw. }
  split; [|split; [|split; [|split]]].
  - intros k'. rewrite !lookup_reopened. unfold store. simpl. done.
  - intros Hb Hok w Hw. rewrite lookup_reopened. unfold store. rewrite Hb. simpl.
    by apply Hlong.
  - intros Hb Hno k'. rewrite lookup_reopened. unfold store. rewrite Hb. simpl.
    rewrite saved_truncated by done. unfold dict_get. by rewrite lookup_empty.
  - intros Hb k'. rewrite lookup_reopened. unfold store. by rewrite Hb.
  - intros Hv' Hb Hok w Hw m2. split.
    + unfold m2. unfold lookup_memory.
      by rewrite (retrieve_store k v' true true (store k v false m) Hv').
    + rewrite lookup_reopened. unfold m2, store. rewrite Hb. simpl.
      by apply Hlong.
Qed.

Lemma what_survives_reopening_witness :
  let m := Memory JsonFile ∅ ∅ in
  lookup_memory "k" (reopened json_example (store "k" (PObj "tuple" true) false m))
  = PObj "list" true ∧
  lookup_memory "k" (reopened json_example (store "k" (PObj "set" true) false m)) = PNone.
Proof.
  intros m.
  destruct (what_survives_reopening json_example "k" (PObj "tuple" true) PNone m)
    as (_ & Hsees & _).
  destruct (what_survives_reopening json_example "k" (PObj "set" true) PNone m)
    as (_ & _ & Hnone & _).
  split.
  - apply Hsees; [reflexivity| |reflexivity].
    intros i x Hix. apply lookup_insert_Some in Hix as [[<- <-]|[_ Hix]].
    + by eexists.
    + unfold m in Hix. simpl in Hix. by rewrite lookup_empty in Hix.
  - apply Hnone; [reflexivity|].
    intros Hok. specialize (Hok "k" (PObj "set" true)).
    rewrite lookup_insert_eq in Hok. destruct (Hok eq_refl) as [x Hx]. discriminate Hx.
Defined.

(** X6.  Storing [None] is the same as storing nothing for [retrieve]: the
    key then resolves to what the backend holds (a short-term [None] does
    not hide a value kept in the JSON file), and to [None] when the [None]
    went to the backend as well. *)
Theorem storing_none_is_absence (k : string) (m : MemorySystem) :
  lookup_memory k (store k PNone true m) =
    match backend_type m with
    | JsonFile => dict_get k (backend_client m)
    | ShortTermOnly => PNone
    end ∧
  lookup_memory k (store k PNone false m) = PNone ∧
  snd (retrieve k false (store k PNone true m)) = PNone.
Proof.
  rewrite !lookup_memory_layers. unfold retrieve, store.
  destruct (backend_type m) eqn:Hb; simpl; rewrite ?dict_get_insert, ?Hb; done.
Qed.

(** * More of the code: what the agent and the controller put in memory *)

(** X7.  When [receive_task] ends, a produced result, or else the message
    of the failure, is stored long-term under ["<agent id>_last_result"]
    and can be retrieved from there; every other key resolves as before;
    after a cancellation the memory is left as it was. *)
Theorem outcome_is_reported (po : process_outcome) (a : agent) (m : MemorySystem) :
  let m' := snd (receive_task_resume_mem po a m) in
  let k := last_result_key (agent_id a) in
  (∀ r, po = Produced r → lookup_memory k m' = PStr r) ∧
  (∀ msg, po = Failed msg → lookup_memory k m' = PStr msg) ∧
  (po = CancelledDuring → m' = m) ∧
  (∀ k', k' ≠ k → lookup_memory k' m' = lookup_memory k' m) ∧
  (po ≠ CancelledDuring → backend_type m = JsonFile →
   dict_get k (backend_client m') = lookup_memory k m').
Proof.
  intros m' k.
  assert (Hm : m' = match po with
                    | Produced r => store k (PStr r) false m
                    | Failed msg => store k (PStr msg) false m
                    | CancelledDuring => m
                    end).
  { unfold m', receive_task_resume_mem. by destruct po. }
  split; [|split; [|split; [|split]]].
  - intros r ->. rewrite Hm. unfold lookup_memory.
    by rewrite retrieve_store.
  - intros msg ->. rewrite Hm. unfold lookup_memory.
    by rewrite retrieve_store.
  - intros ->. by rewrite Hm.
  - intros k' Hne. rewrite Hm.
    destruct po as [r|msg|]; [| |done].
    + by apply lookup_store_ne.
    + by apply lookup_store_ne.
  - intros Hpo Hb. rewrite Hm.
    destruct po as [r|msg|]; [| |done].
    + unfold lookup_memory.
      rewrite retrieve_store by done.
      unfold store. rewrite Hb. simpl. apply dict_get_insert.
    + unfold lookup_memory.
      rewrite retrieve_store by done.
      unfold store. rewrite Hb. simpl. apply dict_get_insert.
Qed.

Lemma outcome_is_reported_witness :
  let a := new_agent "default-00000001" Agent in
  lookup_memory "default-00000001_last_result"
    (snd (receive_task_resume_mem (Failed "boom") a (Memory JsonFile ∅ ∅))) = PStr "boom".
Proof.
  intros a.
  destruct (outcome_is_reported (Failed "boom") a (Memory JsonFile ∅ ∅)) as (_ & H & _).
  exact (H "boom" eq_refl).
Defined.

(** X8.  The status snapshot is kept in the cache only.  After an update
    the JSON text is found under ["tac_controller_status"] in the
    controller's own memory system, but the backend is not written, so
    another memory system on the same backend resolves the key as before;
    when serialising fails the memory is left as it was; and after the
    clearing call the key resolves to [None]. *)
Theorem status_is_published_short_term {T : Type} (now : T)
    (json_dumps : status_data T → option string)
    (json_cycle : py_value → option py_value) (c : controller)
    (m : MemorySystem) :
  let m' := _update_status_in_memory false now json_dumps c m in
  (∀ js, json_dumps (snapshot now c) = Some js →
         snd (retrieve status_memory_key false m') = PStr js) ∧
  (json_dumps (snapshot now c) = None → m' = m) ∧
  backend_client m' = backend_client m ∧
  (∀ k, lookup_memory k (reopened json_cycle m')
        = lookup_memory k (reopened json_cycle m)) ∧
  lookup_memory status_memory_key
    (_update_status_in_memory true now json_dumps c m') = PNone.
Proof.
  intros m'. unfold m', _update_status_in_memory.
  split; [|split; [|split; [|split]]].
  - intros js ->.
    by rewrite retrieve_store.
  - by intros ->.
  - destruct (json_dumps (snapshot now c)); [|done].
    unfold store. simpl. done.
  - intros k. destruct (json_dumps (snapshot now c)); [|done].
    rewrite !lookup_reopened. unfold store. simpl. done.
  - exact (f_equal snd (retrieve_delete status_memory_key true _)).
Qed.

Lemma status_is_published_short_term_witness :
  let dumps := fun sd : status_data nat =>
                 if decide (sd_task_queue_size sd = 0%nat) then Some "{}" else None in
  snd (retrieve status_memory_key false
         (_update_status_in_memory false 7%nat dumps (init 5 1) (Memory JsonFile ∅ ∅)))
  = PStr "{}".
Proof.
  intros dumps.
  destruct (status_is_published_short_term 7%nat dumps json_example (init 5 1)
              (Memory JsonFile ∅ ∅)) as (H & _).
  exact (H "{}" eq_refl).
Defined.

(** * More of the code: invariants of the controller *)

Lemma length_set_present {V} (k : string) (v v0 : V) (d : list (string * V)) :
  PyDict.get k d = Some v0 → length (PyDict.set k v d) = length d.
Proof.
  induction d as [|[k' v'] d IH]; simpl; [done|].
  destruct (decide (k' = k)); simpl; [done|]. intros H. by rewrite IH.
Qed.

Lemma length_set_bound {V} (k : string) (v : V) (d : list (string * V)) :
  (length (PyDict.set k v d) ≤ S (length d))%nat.
Proof.
  induction d as [|[k' v'] d IH]; simpl; [lia|].
  destruct (decide (k' = k)); simpl; lia.
Qed.

Lemma length_del_bound {V} (k : string) (d : list (string * V)) :
  (length (PyDict.del k d) ≤ length d)%nat.
Proof.
  induction d as [|[k' v'] d IH]; simpl; [lia|].
  destruct (decide (k' = k)); simpl; lia.
Qed.

Lemma step_active_bound ev c :
  Z.of_nat (length (active_tasks c)) ≤ max_concurrent_agents c →
  Z.of_nat (length (active_tasks (step ev c))) ≤ max_concurrent_agents (step ev c).
Proof.
  intros Hc. rewrite (proj1 (step_limits ev c)).
  destruct ev as [d r u|u|aid|aid po|aid u| |]; simpl.
  - by destruct (assign_task_frame d r u c) as (_ & -> & _).
  - destruct (loop_alive c && launch_guard c) eqn:Hgo; [|done].
    apply andb_true_iff in Hgo as [_ Hg]. unfold launch_guard in Hg.
    apply andb_true_iff in Hg as [_ Hlt]. apply Z.ltb_lt in Hlt.
    unfold launch_one. destruct (task_queue c) as [|t q]; [done|].
    destruct (at_capacity (with_task_queue q c)) eqn:Hcap.
    + rewrite create_agent_full by done.
      by destruct (assign_task_frame (details t) (retry_count t) u
                     (emit (LogCreateFailed (task_id t))
                        (emit LogLimitReached (with_task_queue q c))))
        as (_ & -> & _).
    + destruct (create_agent_room (hint_of (details t)) (details t) u _ Hcap)
        as (cls & c1 & -> & [->| ->]); simpl;
        match goal with
        | |- context [PyDict.set ?k ?v ?d] =>
            pose proof (length_set_bound k v d)
        end; lia.
  - unfold unit_start, run_agent_task_begin.
    destruct (PyDict.get aid (active_tasks c)) as [t|] eqn:Hget; [|done].
    destruct (aio_phase_of t); try done.
    destruct (agents c !! aid); simpl; by erewrite length_set_present.
  - unfold unit_end.
    destruct (PyDict.get aid (active_tasks c)) as [t|] eqn:Hget; [|done].
    destruct (aio_phase_of t) eqn:Hph.
    + destruct po; try done. simpl. by erewrite length_set_present.
    + unfold run_agent_task_resume, receive_agent_update, receive_task_resume.
      repeat (case_match; simpl in *; simplify_eq);
        by erewrite length_set_present.
    + by destruct po.
  - unfold callback.
    destruct (PyDict.get aid (active_tasks c)) as [t|] eqn:Hget; [|done].
    destruct (aio_phase_of t); try done.
    rewrite handle_task_completion_active.
    destruct (scan_active t (active_tasks c)); [|done].
    destruct (decide (s = "")); [done|].
    pose proof (length_del_bound s (active_tasks c)). lia.
  - done.
  - simpl in Hc. lia.
Qed.

(** X9.  In every state reached from the initial one, the number of units
    in flight is at most [max_concurrent_agents] (for a limit that is not
    negative): the launch loop adds one unit only while there are fewer,
    and no other event adds one. *)
Theorem in_flight_never_exceeds_limit (M R : Z) (evs : list event) :
  0 ≤ M →
  Z.of_nat (length (active_tasks (run_events evs (init M R)))) ≤ M.
Proof.
  intros HM.
  assert (Hgen : ∀ c, Z.of_nat (length (active_tasks c)) ≤ max_concurrent_agents c →
                      Z.of_nat (length (active_tasks (run_events evs c))) ≤
                      max_concurrent_agents (run_events evs c)).
  { induction evs as [|ev evs IH]; intros c Hc; [done|].
    rewrite run_events_cons. apply IH. by apply step_active_bound. }
  specialize (Hgen (init M R)).
  rewrite (proj1 (run_events_limits evs (init M R))) in Hgen.
  apply Hgen. simpl. lia.
Qed.

Lemma in_flight_never_exceeds_limit_witness :
  Z.of_nat (length (active_tasks
    (run_events [EvAssign ∅ 0 (uuid_of 0); EvAssign ∅ 0 (uuid_of 1);
                 EvLaunch (uuid_of 2); EvLaunch (uuid_of 3)] (init 1 1)))) ≤ 1.
Proof. apply in_flight_never_exceeds_limit. lia. Defined.

(** X10.  In every state reached from the initial one, each unit in
    flight sits under the id of an agent that is registered, and the scan
    by which the completion callback looks for a finished unit returns the
    very key the unit is stored under: a callback is never charged to
    another agent. *)
Theorem callback_finds_its_own_agent (M R : Z) (evs : list event)
    (aid : string) (t : aio_task) :
  let c := run_events evs (init M R) in
  PyDict.get aid (active_tasks c) = Some t →
  is_Some (agents c !! aid) ∧ aid ≠ "" ∧
  scan_active t (active_tasks c) = Some aid ∧
  (aio_id t < spawned c)%nat.
Proof.
  intros c Hget.
  assert (Hwf : wf c) by (apply run_events_wf, wf_init).
  pose proof (PyDictFacts.get_In _ _ _ Hget) as Hin.
  destruct (proj1 Hwf aid t Hin) as (Hsp & Hne & Hreg).
  repeat split; try done.
  by eapply scan_active_found.
Qed.

Lemma callback_finds_its_own_agent_witness :
  let c := run_events [EvAssign ∅ 0 (uuid_of 0); EvAssign ∅ 0 (uuid_of 1);
                       EvLaunch (uuid_of 2); EvLaunch (uuid_of 3)] (init 2 1) in
  let aid := make_agent_id "default" (uuid_of 3) in
  scan_active (AioTask 1 (with_status T_running (new_task (∅, 0, uuid_of 1))) Scheduled)
    (active_tasks c) = Some aid.
Proof.
  intros c aid.
  destruct (callback_finds_its_own_agent 2 1
              [EvAssign ∅ 0 (uuid_of 0); EvAssign ∅ 0 (uuid_of 1);
               EvLaunch (uuid_of 2); EvLaunch (uuid_of 3)] aid
              (AioTask 1 (with_status T_running (new_task (∅, 0, uuid_of 1))) Scheduled))
    as (_ & _ & H & _).
  - vm_compute. reflexivity.
  - exact H.
Defined.

Lemma In_deque_append {A} (n : nat) (x e : A) (q : list A) :
  In e (deque_append n x q) → e = x ∨ In e q.
Proof.
  unfold deque_append. intros H.
  assert (Hin : In e (q ++ [x])).
  { destruct (n <? length (q ++ [x]))%nat; [|done].
    destruct (q ++ [x]); [done|]. by right. }
  apply in_app_or in Hin as [?|[<-|[]]]; auto.
Qed.

Lemma lifecycle_init M R : lifecycle_ok (init M R).
Proof. repeat split; intros; simpl in *; done. Qed.

Lemma assign_task_lifecycle d r u c :
  lifecycle_ok c → lifecycle_ok (fst (assign_task d r u c)).
Proof.
  intros (Hq & Hu & Hh).
  destruct (assign_task_frame d r u c) as (_ & Hact & Hhist & _).
  split; [|split].
  - intros t. rewrite assign_task_queue.
    destruct (0 <? r).
    + intros [<-|Hin]; [done|by apply Hq].
    + intros [Hin|[<-|[]]]%in_app_or; [by apply Hq|done].
  - by rewrite Hact.
  - by rewrite Hhist.
Qed.

Lemma step_lifecycle ev c : lifecycle_ok c → lifecycle_ok (step ev c).
Proof.
  intros Hc. pose proof Hc as (Hq & Hu & Hh).
  destruct ev as [d r u|u|aid|aid po|aid u| |]; simpl.
  - by apply assign_task_lifecycle.
  - destruct (loop_alive c && launch_guard c); [|done].
    unfold launch_one. destruct (task_queue c) as [|t q] eqn:Hqc; [done|].
    assert (Hrest : lifecycle_ok (with_task_queue q c)).
    { split; [|done]. intros t' Hin. apply Hq. by right. }
    destruct (at_capacity (with_task_queue q c)) eqn:Hcap.
    + rewrite create_agent_full by done. by apply assign_task_lifecycle.
    + destruct (Hq t) as [Hst Herr]; [by left|].
      destruct (create_agent_room (hint_of (details t)) (details t) u _ Hcap)
        as (cls & c1 & -> & [->| ->]); simpl;
        (split; [|split]; simpl; [by apply Hrest| |done]);
        intros aid' u' [[= -> ->]|Hin]%PyDictFacts.In_set;
        first [ by split | by eapply Hu ].
  - unfold unit_start, run_agent_task_begin.
    destruct (PyDict.get aid (active_tasks c)) as [t|] eqn:Hget; [|done].
    apply PyDictFacts.get_In in Hget.
    destruct (aio_phase_of t) eqn:Hph; try done.
    pose proof (Hu aid t Hget) as [Herr Hst]. rewrite Hph in Hst.
    destruct (agents c !! aid); simpl;
      (split; [|split]; simpl; [done| |done]);
      intros aid' u' [[= -> ->]|Hin]%PyDictFacts.In_set;
      first [ by split | by eapply Hu ].
  - unfold unit_end.
    destruct (PyDict.get aid (active_tasks c)) as [t|] eqn:Hget; [|done].
    apply PyDictFacts.get_In in Hget.
    pose proof (Hu aid t Hget) as [Herr Hst].
    destruct (aio_phase_of t) eqn:Hph.
    + destruct po; try done. simpl.
      split; [|split]; simpl; [done| |done].
      intros aid' u' [[= -> ->]|Hin]%PyDictFacts.In_set; [|by eapply Hu].
      split; [done|]. simpl. by right.
    + unfold run_agent_task_resume, receive_agent_update, receive_task_resume.
      destruct po, (agents c !! aid) eqn:Ha; simpl;
        rewrite ?lookup_insert_eq, ?Ha; simpl;
        (split; [|split]; simpl; [done| |]);
        first
          [ intros aid' u' [[= -> ->]|Hin]%PyDictFacts.In_set;
            [ split; simpl; auto | by eapply Hu ]
          | intros e [->|Hin]%In_deque_append;
            [ simpl; auto | by apply Hh ] ].
    + by destruct po.
  - unfold callback.
    destruct (PyDict.get aid (active_tasks c)) as [t|] eqn:Hget; [|done].
    destruct (aio_phase_of t) eqn:Hph; try done.
    unfold _handle_task_completion, retry_decision. rewrite Hph.
    assert (Hdel : ∀ k, lifecycle_ok (with_active_tasks (PyDict.del k (active_tasks c)) c)).
    { intros k. split; [|split]; simpl; [done| |done].
      intros aid' u' Hin%PyDictFacts.In_del. by eapply Hu. }
    assert (Hag : ∀ c0 ag, lifecycle_ok c0 → lifecycle_ok (with_agents ag c0)).
    { by intros c0 ag (? & ? & ?). }
    assert (Hem : ∀ c0 r, lifecycle_ok c0 → lifecycle_ok (emit r c0)).
    { by intros c0 r (? & ? & ?). }
    destruct exc as [[|msg]|]; simpl;
      repeat (case_match; simpl; simplify_eq);
      repeat first [ apply Hem | apply Hag | apply assign_task_lifecycle | apply Hdel ];
      done.
  - by destruct Hc as (? & ? & ?).
  - split; [|split]; simpl; done.
Qed.

(** X11.  The life of a task record, in every state reached from the
    initial one.  A queued record is pending and carries no error.  The
    record of a unit in flight is running until the unit is done; that of a
    unit that returned is completed, that of a cancelled one is cancelled
    (or still running, if it was cancelled before its first step); no unit
    ends with another exception.  Each history entry is stored under its own
    task id, with status completed or cancelled and no error message: the
    status ["error"] is never recorded. *)
Theorem task_status_lifecycle (M R : Z) (evs : list event) :
  lifecycle_ok (run_events evs (init M R)).
Proof.
  assert (Hgen : ∀ c, lifecycle_ok c → lifecycle_ok (run_events evs c)).
  { induction evs as [|ev evs IH]; intros c Hc; [done|].
    rewrite run_events_cons. apply IH. by apply step_lifecycle. }
  apply Hgen, lifecycle_init.
Qed.

Lemma agents_within_budget_insert R ag k a :
  agents_within_budget R ag →
  (∀ meta, _task_meta_for_callback a = Some meta → within_budget R meta) →
  agents_within_budget R (<[k := a]> ag).
Proof.
  intros Hag Ha aid a' meta.
  destruct (decide (aid = k)) as [->|Hne].
  - rewrite lookup_insert_eq. intros [= <-]. apply Ha.
  - rewrite lookup_insert_ne by done. apply Hag.
Qed.

Lemma assign_task_retries R d r u c :
  0 ≤ r ≤ Z.max 0 R → retries_ok R c → retries_ok R (fst (assign_task d r u c)).
Proof.
  intros Hr (HR & Hq & Hu & Ha & Hh).
  destruct (assign_task_frame d r u c) as (Hag & Hact & Hhist & Hlim).
  split; [|split; [|split; [|split]]].
  - unfold assign_task. by destruct (0 <? r).
  - intros t. rewrite assign_task_queue.
    destruct (0 <? r).
    + intros [<-|Hin]; [done|by apply Hq].
    + intros [Hin|[<-|[]]]%in_app_or; [by apply Hq|done].
  - by rewrite Hact.
  - by rewrite Hag.
  - by rewrite Hhist.
Qed.

Lemma step_retries R ev c :
  first_assignment ev = true → retries_ok R c → retries_ok R (step ev c).
Proof.
  intros Hev Hc. pose proof Hc as (HR & Hq & Hu & Ha & Hh).
  assert (Hem : ∀ c0 r, retries_ok R c0 → retries_ok R (emit r c0)).
  { by intros c0 r (? & ? & ? & ? & ?). }
  destruct ev as [d r u|u|aid|aid po|aid u| |]; simpl.
  - simpl in Hev. apply Z.eqb_eq in Hev as ->. apply assign_task_retries; [lia|done].
  - destruct (loop_alive c && launch_guard c); [|done].
    unfold launch_one. destruct (task_queue c) as [|t q] eqn:Hqc; [done|].
    assert (Ht : within_budget R t) by (apply Hq; by left).
    assert (Hrest : retries_ok R (with_task_queue q c)).
    { split; [done|]. split; [|done]. intros t' Hin. apply Hq. by right. }
    destruct (at_capacity (with_task_queue q c)) eqn:Hcap.
    + rewrite create_agent_full by done.
      apply assign_task_retries; [done|]. by do 2 apply Hem.
    + destruct (create_agent_room (hint_of (details t)) (details t) u _ Hcap)
        as (cls & c1 & -> & [->| ->]); simpl;
        (split; [done|]; split; [by apply Hrest|]; split; [|split; [|done]]; simpl);
        first
          [ intros aid' u' [[= -> ->]|Hin]%PyDictFacts.In_set;
            [ done | by eapply Hu ]
          | by apply agents_within_budget_insert ].
  - unfold unit_start, run_agent_task_begin.
    destruct (PyDict.get aid (active_tasks c)) as [t|] eqn:Hget; [|done].
    apply PyDictFacts.get_In in Hget.
    destruct (aio_phase_of t) eqn:Hph; try done.
    pose proof (Hu aid t Hget) as Ht.
    destruct (agents c !! aid); simpl;
      (split; [done|]; split; [done|]; split; [|split; [|done]]; simpl);
      first
        [ intros aid' u' [[= -> ->]|Hin]%PyDictFacts.In_set;
          [ done | by eapply Hu ]
        | apply agents_within_budget_insert; [done|]; by intros meta [= <-]
        | done ].
  - unfold unit_end.
    destruct (PyDict.get aid (active_tasks c)) as [t|] eqn:Hget; [|done].
    apply PyDictFacts.get_In in Hget.
    pose proof (Hu aid t Hget) as Ht.
    destruct (aio_phase_of t) eqn:Hph.
    + destruct po; try done. simpl.
      split; [done|]; split; [done|]; split; [|done]; simpl.
      intros aid' u' [[= -> ->]|Hin]%PyDictFacts.In_set; [done|by eapply Hu].
    + unfold run_agent_task_resume, receive_agent_update, receive_task_resume.
      destruct po, (agents c !! aid) eqn:Hag; simpl;
        rewrite ?lookup_insert_eq, ?Hag; simpl;
        (split; [done|]; split; [done|]; split; [|split]; simpl);
        first
          [ intros aid' u' [[= -> ->]|Hin]%PyDictFacts.In_set;
            [ done | by eapply Hu ]
          | intros e [->|Hin]%In_deque_append; [ done | by apply Hh ]
          | do 2 (apply agents_within_budget_insert; [|by intros meta [= <-]]); done
          | done ].
    + by destruct po.
  - unfold callback.
    destruct (PyDict.get aid (active_tasks c)) as [t|] eqn:Hget; [|done].
    destruct (aio_phase_of t) eqn:Hph; try done.
    unfold _handle_task_completion. rewrite Hph.
    assert (Hdel : ∀ k, retries_ok R (with_active_tasks (PyDict.del k (active_tasks c)) c)).
    { intros k. split; [done|]; split; [done|]; split; [|done]; simpl.
      intros aid' u' Hin%PyDictFacts.In_del. by eapply Hu. }
    assert (Hclr : ∀ c0 k a, retries_ok R c0 →
              retries_ok R (with_agents (<[k := with_task_meta None a]> (agents c0)) c0)).
    { intros c0 k a (? & ? & ? & ? & ?).
      split; [done|]; split; [done|]; split; [done|]; split; [|done]; simpl.
      by apply agents_within_budget_insert. }
    assert (Hretry : ∀ k meta, within_budget R meta →
              retries_ok R (retry_decision k meta u
                              (with_active_tasks (PyDict.del k (active_tasks c)) c))).
    { intros k meta Hm. unfold retry_decision. simpl. rewrite HR.
      destruct (retry_count meta <? R) eqn:Hlt.
      - apply Z.ltb_lt in Hlt. apply assign_task_retries; [|by apply Hem].
        unfold within_budget in Hm. lia.
      - by apply Hem. }
    assert (Hbody : retries_ok R
      match scan_active t (active_tasks c) with
      | Some aid0 =>
          if decide (aid0 = "") then emit (LogUnmapped (aio_id t)) c
          else
            let c1 := with_active_tasks (PyDict.del aid0 (active_tasks c)) c in
            match agents c1 !! aid0 with
            | Some a =>
                let c2 :=
                  match state a, _task_meta_for_callback a with
                  | S_error, Some meta => retry_decision aid0 meta u c1
                  | _, _ => c1
                  end in
                with_agents (<[aid0 := with_task_meta None a]> (agents c2)) c2
            | None => c1
            end
      | None => emit (LogUnmapped (aio_id t)) c
      end).
    { destruct (scan_active t (active_tasks c)) as [k|]; [|by apply Hem].
      destruct (decide (k = "")); [by apply Hem|]. cbv zeta.
      change (agents (with_active_tasks (PyDict.del k (active_tasks c)) c))
        with (agents c).
      destruct (agents c !! k) as [a|] eqn:Hag; [|by apply Hdel].
      apply Hclr.
      destruct (state a); try apply Hdel.
      destruct (_task_meta_for_callback a) as [meta|] eqn:Hm; [|apply Hdel].
      apply Hretry. by eapply Ha. }
    destruct exc as [[|msg]|]; simpl; try apply Hem; exact Hbody.
  - by destruct Hc as (? & ? & ? & ? & ?).
  - split; [done|]. split; [|split; [|split]]; simpl; try done.
Qed.

(** X12.  The retry budget.  When every call of [assign_task] from outside
    leaves [retry_count] at its default, each task record the controller
    holds, in the queue, with a unit in flight, attached to an agent for the
    callback or in the history, has a retry count between 0 and
    [max_task_retries] (0 when that limit is negative): the completion
    callback is the only place that raises the count, and it does so only
    below the limit. *)
Theorem retry_count_within_budget (M R : Z) (evs : list event) :
  forallb first_assignment evs = true →
  retries_ok R (run_events evs (init M R)).
Proof.
  assert (Hgen : ∀ c, forallb first_assignment evs = true →
                      retries_ok R c → retries_ok R (run_events evs c)).
  { induction evs as [|ev evs IH]; intros c Hevs Hc; [done|].
    simpl in Hevs. apply andb_true_iff in Hevs as [Hev Hevs].
    rewrite run_events_cons. apply IH; [done|]. by apply step_retries. }
  intros Hevs. apply Hgen; [done|].
  split; [done|]. split; [|split; [|split]]; simpl; done.
Qed.

Lemma retry_count_within_budget_witness :
  retries_ok 2
    (run_events (failing_run ∅ "boom" "u0" [("a1", "r1"); ("a2", "r2"); ("a3", "r3")])
       (init 3 2)).
Proof. apply retry_count_within_budget. reflexivity. Defined.


(** * More of the code: the launch loop and [shutdown] *)









(** * More of the code: the specialised agents *)

Lemma description_has_truthy kw (d : details_map) :
  String.prefix kw "" = false →
  description_mentions kw d = true →
  ∃ s, d !! "description" = Some s ∧ str_truthy (Some s) = true.
Proof.
  unfold description_mentions. intros Hkw H.
  destruct (d !! "description") as [s|]; [|done].
  exists s. split; [done|]. destruct s as [|a s]; [|done].
  change (Text.contains kw (Text.lower "")) with (String.prefix kw "" || false) in H.
  by rewrite Hkw in H.
Qed.

Lemma append_nonempty_r (s t : string) : t ≠ "" → s +:+ t ≠ "".
Proof.
  intros Ht. destruct s as [|a s]; [exact Ht|].
  change (String a s +:+ t) with (String a (s +:+ t)). discriminate.
Qed.

Lemma generated_tool_key_nonempty aid desc : generated_tool_key aid desc ≠ "".
Proof.
  unfold generated_tool_key. apply append_nonempty_r.
  change ("_generated_tool_" +:+ Text.take_chars 20 desc +:+ "...")
    with (String "_" ("generated_tool_" +:+ Text.take_chars 20 desc +:+ "...")).
  discriminate.
Qed.

(** The key is cut after twenty characters, not twenty bytes: the
    two-byte characters of the description below are kept whole. *)
Example generated_tool_key_cuts_characters :
  generated_tool_key "a1" "Créer un outil très grand et lent"
  = "a1_generated_tool_Créer un outil très ..." ∧
  String.length (Text.take_chars 20 "Créer un outil très grand et lent") = 22%nat.
Proof. split; reflexivity. Qed.

Lemma routed_to_creator (d : details_map) :
  class_of <$> effective_agent_type "default" (as_task_info d) = Some ToolCreatorAgent →
  description_mentions "create" d = true.
Proof.
  unfold effective_agent_type. rewrite decide_True by done.
  rewrite !description_has_text.
  destruct (has_key "url" (as_task_info d)), (description_mentions "create" d),
    (has_key "code" (as_task_info d)), (has_key "code_key" (as_task_info d)),
    (description_mentions "find" d), (description_mentions "research" d),
    (description_mentions "gather" d); simpl; done.
Qed.

Lemma routed_to_info_hunter (d : details_map) :
  class_of <$> effective_agent_type "default" (as_task_info d) = Some InfoHunterAgent →
  description_mentions "find" d || description_mentions "research" d
    || description_mentions "gather" d = true.
Proof.
  unfold effective_agent_type. rewrite decide_True by done.
  rewrite !description_has_text.
  destruct (has_key "url" (as_task_info d)), (description_mentions "create" d),
    (has_key "code" (as_task_info d)), (has_key "code_key" (as_task_info d)),
    (description_mentions "find" d), (description_mentions "research" d),
    (description_mentions "gather" d); simpl; done.
Qed.

(** X15.  From the tool creator to the tool executor through the memory.
    When the creator has a description, a language model and generated code
    that is neither empty nor an error text, an executor that is given the
    creator's memory key as ['code_key'] (and no ['code']) runs exactly that
    code.  On the JSON file backend it does so as well from another memory
    system opened on the same file, provided the values kept in the file
    can all be serialised; when another key holds a value that cannot, the
    file is unreadable and that executor answers that it found no code. *)
Theorem created_tool_runs_from_memory (aid desc code : string)
    (generate_tool_code : string → option string)
    (save : string → string → option string)
    (execute_code_safely : string → option string)
    (json_cycle : py_value → option py_value)
    (d : details_map) (m : MemorySystem) :
  d !! "description" = Some desc → desc ≠ "" →
  generate_tool_code desc = Some code →
  String.prefix "Error:" code = false → code ≠ "" →
  let m1 := fst (creator_process_task aid true generate_tool_code save d m) in
  let job : details_map := {[ "code_key" := generated_tool_key aid desc ]} in
  snd (executor_process_task execute_code_safely job m1) = ran execute_code_safely code ∧
  (backend_type m = JsonFile → json_ok json_cycle (backend_client m) →
   snd (executor_process_task execute_code_safely job (reopened json_cycle m1))
   = ran execute_code_safely code) ∧
  (backend_type m = JsonFile →
   (∃ k0 v0, k0 ≠ generated_tool_key aid desc ∧
             backend_client m !! k0 = Some v0 ∧ json_image json_cycle v0 = None) →
   snd (executor_process_task execute_code_safely job (reopened json_cycle m1))
   = Produced "Error: No code provided or found in memory for ToolExecutorAgent task.").
Proof.
  intros Hd Hne Hgen Herr Hcode m1 job.
  assert (Hm1 : m1 = store (generated_tool_key aid desc) (PStr code) false m).
  { unfold m1, creator_process_task. rewrite Hd. simpl.
    rewrite bool_decide_eq_false_2 by done. simpl.
    by rewrite Hgen, Herr. }
  assert (Hk : generated_tool_key aid desc ≠ "")
    by apply generated_tool_key_nonempty.
  assert (Hjob : ∀ m0, lookup_memory (generated_tool_key aid desc) m0 = PStr code →
            snd (executor_process_task execute_code_safely job m0)
            = ran execute_code_safely code).
  { intros m0 Hm0. unfold executor_process_task, job.
    rewrite lookup_singleton_ne by done. rewrite lookup_singleton_eq. simpl.
    rewrite bool_decide_eq_false_2 by done. simpl.
    unfold lookup_memory in Hm0.
    destruct (retrieve (generated_tool_key aid desc) true m0) as [m0' v].
    simpl in Hm0. subst v. simpl.
    rewrite bool_decide_eq_false_2 by done. reflexivity. }
  split; [|split].
  - apply Hjob. rewrite Hm1. unfold lookup_memory.
    by rewrite retrieve_store.
  - intros Hb Hok. apply Hjob. rewrite Hm1, lookup_reopened.
    unfold store. rewrite Hb. simpl.
    rewrite dict_get_saved.
    + by rewrite lookup_insert_eq.
    + apply map_Forall_insert_2; [by eexists | exact Hok].
  - intros Hb (k0 & v0 & Hk0 & Hv0 & Hbad).
    assert (Hnone : lookup_memory (generated_tool_key aid desc) (reopened json_cycle m1)
                    = PNone).
    { rewrite Hm1, lookup_reopened. unfold store. rewrite Hb. simpl.
      rewrite saved_truncated; [unfold dict_get; by rewrite lookup_empty|].
      intros Hok. specialize (Hok k0 v0).
      rewrite lookup_insert_ne in Hok by done.
      destruct (Hok Hv0) as [x Hx]. congruence. }
    unfold executor_process_task, job.
    rewrite lookup_singleton_ne by done. rewrite lookup_singleton_eq. simpl.
    rewrite bool_decide_eq_false_2 by done. simpl.
    unfold lookup_memory in Hnone.
    destruct (retrieve (generated_tool_key aid desc) true (reopened json_cycle m1))
      as [m0' v].
    simpl in Hnone. by subst v.
Qed.

Lemma created_tool_runs_from_memory_witness :
  let gen := fun _ : string => Some "print(1)" in
  let save := fun _ _ : string => @None string in
  let exec := fun code : string => Some ("ran " +:+ code) in
  let d : details_map := {[ "description" := "create a printer" ]} in
  let m1 := fst (creator_process_task "tool_creator-1" true gen save d (Memory JsonFile ∅ ∅)) in
  let job : details_map :=
    {[ "code_key" := generated_tool_key "tool_creator-1" "create a printer" ]} in
  snd (executor_process_task exec job m1) = Produced "ran print(1)" ∧
  snd (executor_process_task exec job (reopened json_example m1)) = Produced "ran print(1)".
Proof.
  intros gen save exec d m1 job.
  assert (H1 : d !! "description" = Some "create a printer") by reflexivity.
  assert (H2 : "create a printer" ≠ "") by discriminate.
  assert (H3 : "print(1)" ≠ "") by discriminate.
  destruct (created_tool_runs_from_memory "tool_creator-1" "create a printer" "print(1)"
              gen save exec json_example d (Memory JsonFile ∅ ∅) H1 H2 eq_refl eq_refl H3)
    as (Hsame & Hother & _).
  split; [exact Hsame|].
  apply Hother; [reflexivity|].
  intros i x Hix. simpl in Hix. by rewrite lookup_empty in Hix.
Defined.

(** X16.  A task that the inference of [_create_agent] sends to the tool
    creator passes the creator's check of the description: its description
    is not empty, and with a language model at hand whose code is not an
    error text, the code is stored long-term under the creator's key. *)
Theorem inferred_creator_task_is_accepted (d : details_map) :
  class_of <$> effective_agent_type "default" (as_task_info d) = Some ToolCreatorAgent →
  ∃ desc, d !! "description" = Some desc ∧ desc ≠ "" ∧
    ∀ aid gen save m code,
      gen desc = Some code → String.prefix "Error:" code = false →
      fst (creator_process_task aid true gen save d m)
      = store (generated_tool_key aid desc) (PStr code) false m.
Proof.
  intros Hcls. apply routed_to_creator in Hcls.
  apply description_has_truthy in Hcls as (desc & Hd & Ht); [|done].
  exists desc. split; [done|]. split.
  - intros ->. done.
  - intros aid gen save m code Hgen Herr.
    unfold creator_process_task. rewrite Hd, Ht. simpl.
    by rewrite Hgen, Herr.
Qed.

Lemma inferred_creator_task_is_accepted_witness :
  ∃ desc, ({[ "description" := "Create a tool" ]} : details_map) !! "description" = Some desc
          ∧ desc ≠ "".
Proof.
  destruct (inferred_creator_task_is_accepted {[ "description" := "Create a tool" ]})
    as (desc & H1 & H2 & _).
  - reflexivity.
  - by exists desc.
Defined.

(** X17.  A task that the inference of [_create_agent] sends to the info
    hunter passes the hunter's check of the query: the hunt is run, on the
    description, whatever the ['query'] field holds. *)
Theorem inferred_hunter_task_is_accepted (d : details_map) :
  class_of <$> effective_agent_type "default" (as_task_info d) = Some InfoHunterAgent →
  ∃ q, d !! "description" = Some q ∧ q ≠ "" ∧
       ∀ hunt, info_hunter_process_task hunt d = hunt q.
Proof.
  intros Hcls. apply routed_to_info_hunter in Hcls.
  assert (H : ∃ s, d !! "description" = Some s ∧ str_truthy (Some s) = true).
  { apply orb_true_iff in Hcls as [Hcls|Hcls];
      [apply orb_true_iff in Hcls as [Hcls|Hcls]|];
      (eapply description_has_truthy; [|exact Hcls]; reflexivity). }
  destruct H as (q & Hd & Ht). exists q. split; [done|]. split.
  - intros ->. done.
  - intros hunt. unfold info_hunter_process_task, py_or. rewrite Hd.
    rewrite !Ht. reflexivity.
Qed.

Lemma inferred_hunter_task_is_accepted_witness :
  ∃ q, ({[ "description" := "Research llamas"; "query" := "alpacas" ]} : details_map)
         !! "description" = Some q ∧
       ∀ hunt, info_hunter_process_task hunt
                 {[ "description" := "Research llamas"; "query" := "alpacas" ]} = hunt q.
Proof.
  destruct (inferred_hunter_task_is_accepted
              {[ "description" := "Research llamas"; "query" := "alpacas" ]})
    as (q & H1 & _ & H3).
  - reflexivity.
  - by exists q.
Defined.

(** X18.  The tool executor prefers the code in the task: with a non-empty
    ['code'] it runs that code and neither reads nor changes the memory,
    whatever ['code_key'] says. *)
Theorem inline_code_wins (execute_code_safely : string → option string)
    (code : string) (d : details_map) (m : MemorySystem) :
  d !! "code" = Some code → code ≠ "" →
  executor_process_task execute_code_safely d m = (m, ran execute_code_safely code).
Proof.
  intros Hd Hne. unfold executor_process_task. rewrite Hd. simpl.
  rewrite bool_decide_eq_false_2 by done. simpl.
  by rewrite bool_decide_eq_false_2 by done.
Qed.

Lemma inline_code_wins_witness :
  executor_process_task (fun code => Some ("ran " +:+ code))
    {[ "code" := "print(1)"; "code_key" := "elsewhere" ]} (Memory ShortTermOnly ∅ ∅)
  = (Memory ShortTermOnly ∅ ∅, Produced "ran print(1)").
Proof.
  assert (H : "print(1)" ≠ "") by discriminate.
  exact (inline_code_wins (fun code => Some ("ran " +:+ code)) "print(1)"
           {[ "code" := "print(1)"; "code_key" := "elsewhere" ]}
           (Memory ShortTermOnly ∅ ∅) eq_refl H).
Defined.

(** X19.  The inference of [_create_agent] looks at the presence of
    ['code'], the executor at its truth value: a task with an empty
    ['code'], no ['code_key'], no ['url'] and no "create" in its
    description is sent to the tool executor, which answers its error text
    as a result and leaves the memory alone. *)
Theorem empty_code_is_routed_and_refused (execute_code_safely : string → option string)
    (d : details_map) (m : MemorySystem) :
  d !! "url" = None → description_has "create" (as_task_info d) = Some false →
  d !! "code" = Some "" → d !! "code_key" = None →
  class_of <$> effective_agent_type "default" (as_task_info d) = Some ToolExecutorAgent ∧
  executor_process_task execute_code_safely d m =
    (m, Produced "Error: No code provided or found in memory for ToolExecutorAgent task.").
Proof.
  intros Hu Hc Hcode Hkey. split.
  - unfold effective_agent_type. rewrite decide_True by done.
    rewrite !has_key_text, Hu, Hc, Hcode. reflexivity.
  - unfold executor_process_task. rewrite Hcode, Hkey. reflexivity.
Qed.

Lemma empty_code_is_routed_and_refused_witness :
  class_of <$> effective_agent_type "default" (as_task_info {[ "code" := "" ]})
  = Some ToolExecutorAgent.
Proof.
  assert (H1 : ({[ "code" := "" ]} : details_map) !! "url" = None) by reflexivity.
  assert (H2 : description_has "create" (as_task_info {[ "code" := "" ]}) = Some false)
    by reflexivity.
  assert (H3 : ({[ "code" := "" ]} : details_map) !! "code" = Some "") by reflexivity.
  assert (H4 : ({[ "code" := "" ]} : details_map) !! "code_key" = None) by reflexivity.
  exact (proj1 (empty_code_is_routed_and_refused (fun _ => None) {[ "code" := "" ]}
                  (Memory ShortTermOnly ∅ ∅) H1 H2 H3 H4)).
Defined.


(** * More of the code: the command line *)

(** X20.  A task given as text with [--task] (and no [--details]) is
    served, at the first pass of the launch loop, by an agent whose id
    starts with ["default-"] and whose class follows from the words of the
    text alone: it is never the browser agent nor the tool executor.  The
    unit carries the text as the description, with retry count 0. *)
Theorem cli_task_text_routing (loads : string → json_parse) (s u ua : string)
    (M R : Z) :
  s ≠ "" → 0 < M →
  ∃ c1 cls,
    main loads (Some s) None u (init M R) = Started c1 ∧
    agents (step (EvLaunch ua) c1)
      = {[ make_agent_id "default" ua := new_agent (make_agent_id "default" ua) cls ]} ∧
    cls ≠ BrowserAgent ∧ cls ≠ ToolExecutorAgent ∧
    PyDict.get (make_agent_id "default" ua) (active_tasks (step (EvLaunch ua) c1))
      = Some {| aio_id := 0;
                aio_meta := {| task_id := u; details := {[ "description" := s ]};
                               status := T_running; retry_count := 0; error := None |};
                aio_phase_of := Scheduled |}.
Proof.
  intros Hs HM.
  set (d := ({[ "description" := s ]} : details_map)).
  assert (Hd : d ≠ ∅).
  { intros H. apply (f_equal (lookup "description")) in H.
    unfold d in H. by rewrite lookup_singleton_eq, lookup_empty in H. }
  assert (Hmain : main loads (Some s) None u (init M R)
                  = Started (with_running true (fst (assign_task d 0 u (init M R))))).
  { unfold main. simpl. rewrite bool_decide_eq_false_2 by done. simpl.
    fold d. by rewrite decide_False by done. }
  set (c1 := with_running true (fst (assign_task d 0 u (init M R)))) in *.
  assert (Hguard : loop_alive c1 && launch_guard c1 = true).
  { unfold loop_alive, launch_guard, c1. simpl.
    apply Z.ltb_lt. lia. }
  assert (Hhint : hint_of d = "default").
  { unfold hint_of, d. by rewrite lookup_singleton_ne. }
  destruct (effective_agent_type_text "default" d) as [e He].
  assert (Hcls : class_of e ≠ BrowserAgent ∧ class_of e ≠ ToolExecutorAgent).
  { revert He. unfold effective_agent_type. rewrite decide_True by done.
    rewrite !has_key_text, !description_has_text.
    unfold d. rewrite !lookup_singleton_ne by done.
    rewrite !bool_decide_eq_false_2 by (by intros [? ?]). simpl.
    fold d.
    destruct (description_mentions "create" d), (description_mentions "find" d),
      (description_mentions "research" d), (description_mentions "gather" d);
      simpl; intros [= <-]; done. }
  exists c1, (class_of e).
  split; [exact Hmain|].
  assert (Hcap : at_capacity (with_task_queue [] c1) = false).
  { apply at_capacity_false. unfold c1. simpl. rewrite map_size_empty. lia. }
  assert (Hstep : step (EvLaunch ua) c1 = launch_one ua c1).
  { unfold step. by rewrite Hguard. }
  rewrite Hstep. unfold launch_one.
  change (task_queue c1) with [new_task (d, 0, u)].
  cbv beta iota zeta. change (details (new_task (d, 0, u))) with d. rewrite Hhint.
  unfold _create_agent. rewrite Hcap, He. cbv zeta.
  destruct Hcls as [Hb Hx].
  destruct (class_of e) eqn:Hc;
    try done; simpl; rewrite decide_True by done;
    (split; [by rewrite insert_empty|]); done.
Qed.

Lemma cli_task_text_routing_witness :
  ∃ c1 cls,
    main (fun _ => Malformed) (Some "Find llamas") None "t0" (init 2 1) = Started c1 ∧
    agents (step (EvLaunch "a0") c1)
      = {[ make_agent_id "default" "a0" := new_agent (make_agent_id "default" "a0") cls ]}.
Proof.
  assert (H1 : "Find llamas" ≠ "") by discriminate.
  assert (H2 : 0 < 2) by lia.
  destruct (cli_task_text_routing (fun _ => Malformed) "Find llamas" "t0" "a0" 2 1 H1 H2)
    as (c1 & cls & Hm & Ha & _).
  by exists c1, cls.
Defined.

(** X21.  [--details] decides alone.  When it is given (and not empty),
    the outcome does not depend on [--task]: text that is not JSON, or JSON
    that is not an object, ends the program with exit code 1, and the empty
    object starts the controller with nothing queued, even when a task text
    was given as well. *)
Theorem details_override_task (loads : string → json_parse) (j : string)
    (task : option string) (u : string) (c : controller) :
  j ≠ "" →
  main loads task (Some j) u c = main loads None (Some j) u c ∧
  (main loads task (Some j) u c = Exit 1 ↔ ∀ d, loads j ≠ JsonObject d) ∧
  (loads j = JsonObject ∅ → main loads task (Some j) u c = Started (with_running true c)).
Proof.
  intros Hj. unfold main. simpl. rewrite bool_decide_eq_false_2 by done. simpl.
  split; [done|]. split.
  - destruct (loads j) as [| |d].
    + split; [intros _ d' H; discriminate H | done].
    + split; [intros _ d' H; discriminate H | done].
    + split; [intros H; discriminate H | intros H; by destruct (H d)].
  - intros ->. by rewrite decide_True.
Qed.

Lemma details_override_task_witness :
  main (fun _ => JsonObject ∅) (Some "Find llamas") (Some "{}") "t0" (init 2 1)
  = Started (with_running true (init 2 1)).
Proof.
  assert (H : "{}" ≠ "") by discriminate.
  destruct (details_override_task (fun _ => JsonObject ∅) "{}" (Some "Find llamas") "t0"
              (init 2 1) H) as (_ & _ & H3).
  exact (H3 eq_refl).
Defined.


(** * More of the code: the dashboard *)

(** X22.  Who sees the published status.  The controller stores its status
    short-term, so a dashboard on the controller's own memory system shows
    it, but a dashboard on a memory system of its own, opened on the same
    backend, finds no status data after any update, unless the backend
    held the key before. *)
Theorem dashboard_sees_only_the_cache {T S : Type} (now : T)
    (json_dumps : status_data T → option string) (json_loads : string → option S)
    (json_cycle : py_value → option py_value)
    (c : controller) (m : MemorySystem) (js : string) (sd : S) :
  json_dumps (snapshot now c) = Some js → js ≠ "" → json_loads js = Some sd →
  dict_get status_memory_key (backend_client m) = PNone →
  let m' := _update_status_in_memory false now json_dumps c m in
  snd (display_dashboard json_loads (Some m')) = StatusShown sd ∧
  snd (display_dashboard json_loads (Some (reopened json_cycle m'))) = NoStatusData.
Proof.
  intros Hd Hjs Hl Hb m'.
  assert (Hm' : m' = store status_memory_key (PStr js) true m).
  { unfold m', _update_status_in_memory. by rewrite Hd. }
  split.
  - unfold display_dashboard. rewrite Hm', retrieve_store by done. simpl.
    rewrite bool_decide_eq_false_2 by done. simpl. by rewrite Hl.
  - unfold display_dashboard.
    assert (Hnone : snd (retrieve status_memory_key true (reopened json_cycle m')) = PNone).
    { change (lookup_memory status_memory_key (reopened json_cycle m') = PNone).
      rewrite Hm', lookup_reopened. unfold store. simpl.
      destruct (backend_type m); [|done].
      unfold saved. case_decide as Hok; [|unfold dict_get; by rewrite lookup_empty].
      unfold dict_get in *. rewrite lookup_omap.
      by destruct (backend_client m !! status_memory_key) as [[| |]|]. }
    destruct (retrieve status_memory_key true (reopened json_cycle m')) as [m0 v].
    simpl in Hnone. by subst v.
Qed.

Lemma dashboard_sees_only_the_cache_witness :
  let dumps := fun _ : status_data nat => Some "{}" in
  let loads := fun s : string => Some s in
  let m' := _update_status_in_memory false 7%nat dumps (init 5 1) (Memory JsonFile ∅ ∅) in
  snd (display_dashboard loads (Some m')) = StatusShown "{}" ∧
  snd (display_dashboard loads (Some (reopened json_example m'))) = NoStatusData.
Proof.
  intros dumps loads.
  assert (H : "{}" ≠ "") by discriminate.
  assert (Hb : dict_get status_memory_key (backend_client (Memory JsonFile ∅ ∅)) = PNone)
    by reflexivity.
  exact (dashboard_sees_only_the_cache 7%nat dumps loads json_example (init 5 1)
           (Memory JsonFile ∅ ∅) "{}" "{}" eq_refl H eq_refl Hb).
Defined.
